(** * TWStockBot: the watch store, the command handler and the alert loop

    A shallow embedding of [src/app.py].  The module-level dictionary
    [watches] and the dictionaries nested in it are Python objects that are
    shared by reference between the command path ([handle_message]) and the
    background thread ([alert_loop]); they are modelled as a heap of
    dictionary objects addressed by locations, so that [dict(watches)]
    copies references exactly as Python does.  Prices are IEEE 754 binary64
    numbers, taken from the standard library's executable specification
    [SpecFloat]. *)

From Stdlib Require Import ZArith NArith List Bool Lia.
From Stdlib Require Import Floats.SpecFloat.
From stdpp Require Import gmap strings list.

(** ** Python floats *)

Module Binary64.

Abbreviation float := spec_float.

Definition prec : Z := 53.
Definition emax : Z := 1024.

(** [x * y] on Python floats: correctly rounded, ties to even. *)
Definition fmul : float -> float -> float := SFmul prec emax.

(** [x <= y], [x < y] and [x >= y]; every comparison with a NaN is false. *)
Definition fle (x y : float) : bool := SFleb x y.
Definition flt (x y : float) : bool := SFltb x y.
Definition fge (x y : float) : bool := SFleb y x.
(** [x == y] *)
Definition feq (x y : float) : bool := SFeqb x y.

(** The literals [1.05], [0.95] and [0.0]: the doubles nearest to the
    decimal numerals, 0x1.0cccccccccccdp+0 and 0x1.e666666666666p-1. *)
Definition c1_05 : float := S754_finite false 4728779608739021 (-52).
Definition c0_95 : float := S754_finite false 8556839292003942 (-53).
Definition fzero : float := S754_zero false.

(** The double with an integer value below 2^53. *)
Definition of_pos (n : positive) : float := binary_normalize prec emax (Zpos n) 0 false.

(** The positive normal doubles: from 2^-1022 up to the largest finite
    double. *)
Definition positive_normal (x : float) : bool :=
  match x with
  | S754_finite false m e => (Zpos (digits2_pos m) =? prec)%Z && bounded prec emax m e
  | _ => false
  end.

(** The order that the comparisons decide, as a lexicographic order: the
    class of the number, then its exponent, then its mantissa, the last two
    negated for a negative number.  A NaN has no place in it. *)
Definition order_key (x : float) : option (Z * Z * Z) :=
  match x with
  | S754_nan => None
  | S754_zero _ => Some (0, 0, 0)%Z
  | S754_infinity false => Some (2, 0, 0)%Z
  | S754_infinity true => Some (-2, 0, 0)%Z
  | S754_finite false m e => Some (1, e, Zpos m)%Z
  | S754_finite true m e => Some (-1, - e, Zneg m)%Z
  end.

Definition lex3 (a b : Z * Z * Z) : comparison :=
  let '(a1, a2, a3) := a in
  let '(b1, b2, b3) := b in
  match (a1 ?= b1)%Z with
  | Eq => match (a2 ?= b2)%Z with Eq => (a3 ?= b3)%Z | c => c end
  | c => c
  end.

(** What rounding leaves of a mantissa [m] at exponent [e] after a right
    shift by [n] bits: unchanged when [n <= 0], otherwise the quotient by
    [2^n] at exponent [e + n]. *)
Definition shifted (n m e m' e' : Z) : Prop :=
  (n <= 0 /\ m' = m /\ e' = e)%Z \/
  (0 < n /\ 2 ^ n * m' <= m < 2 ^ n * (m' + 1) /\ e' = e + n)%Z.

(** The last step of [binary_round_aux] at binary64. *)
Definition pack (sx : bool) (m3 e3 : Z) : float :=
  match m3 with
  | Z0 => S754_zero sx
  | Zpos m => if (e3 <=? 971)%Z then S754_finite sx m e3 else S754_infinity sx
  | Zneg _ => S754_nan
  end.

End Binary64.
Import Binary64.

(** ** Python strings

    A [str] is a sequence of Unicode code points. *)

Abbreviation pystr := (list N).

(** An ASCII literal as a [str]. *)
Fixpoint lit (s : string) : pystr :=
  match s with
  | EmptyString => []
  | String a s' => Ascii.N_of_ascii a :: lit s'
  end.

(** The two Chinese command words of the source, and the full-width space. *)
Definition word_shuoming : pystr := [0x8AAA; 0x660E]%N.    (* "說明" *)
Definition word_shanchu_sp : pystr := [0x522A; 0x9664; 0x20]%N. (* "刪除 " *)
Definition fullwidth_space : N := 0x3000%N.

(** [str.isspace] on one code point: the whitespace of the Unicode
    database, the one that [str.strip()] and [str.split()] use. *)
Definition isspace (c : N) : bool :=
  ((0x09 <=? c) && (c <=? 0x0D) || (0x1C <=? c) && (c <=? 0x20)
   || (c =? 0x85) || (c =? 0xA0) || (c =? 0x1680)
   || (0x2000 <=? c) && (c <=? 0x200A)
   || (c =? 0x2028) || (c =? 0x2029) || (c =? 0x202F) || (c =? 0x205F)
   || (c =? 0x3000))%N.

Fixpoint lstrip (s : pystr) : pystr :=
  match s with
  | [] => []
  | c :: s' => if isspace c then lstrip s' else s
  end.

Definition rstrip (s : pystr) : pystr := rev (lstrip (rev s)).

(** [s.strip()] *)
Definition strip (s : pystr) : pystr := rstrip (lstrip s).

(** [s.split()]: the maximal runs of non-whitespace; [cur] is the run being
    read, reversed. *)
Fixpoint split_aux (s cur : pystr) : list pystr :=
  match s with
  | [] => match cur with [] => [] | _ => [rev cur] end
  | c :: s' =>
      if isspace c
      then match cur with [] => split_aux s' [] | _ => rev cur :: split_aux s' [] end
      else split_aux s' (c :: cur)
  end.

Definition split (s : pystr) : list pystr := split_aux s [].

(** [s.startswith(p)] *)
Fixpoint startswith (p s : pystr) : bool :=
  match p, s with
  | [], _ => true
  | a :: p', b :: s' => (a =? b)%N && startswith p' s'
  | _ :: _, [] => false
  end.

(** [s.replace("　", " ")] *)
Definition replace_fullwidth (s : pystr) : pystr :=
  map (fun c => if (c =? fullwidth_space)%N then 0x20%N else c) s.

(** ASCII instances of the Unicode tables, for running the model on ASCII
    input: on such input they agree with [str.lower] and [str.isdigit]. *)
Definition ascii_lower_cp (c : N) : N :=
  if ((0x41 <=? c) && (c <=? 0x5A))%N then (c + 32)%N else c.
Definition ascii_lower (s : pystr) : pystr := map ascii_lower_cp s.
Definition ascii_isdigit_cp (c : N) : bool := ((0x30 <=? c) && (c <=? 0x39))%N.

(** ** Python dictionaries

    A [dict] keeps its keys in insertion order, which is the order [items()]
    and the list reply enumerate them in. *)

Section Dict.
Context {V : Type}.

(** [d.get(k)] *)
Fixpoint dict_get (d : list (pystr * V)) (k : pystr) : option V :=
  match d with
  | [] => None
  | (k', v) :: d' => if decide (k' = k) then Some v else dict_get d' k
  end.

(** [d[k] = v]: an existing key keeps its place, a new key goes last. *)
Fixpoint dict_set (d : list (pystr * V)) (k : pystr) (v : V) : list (pystr * V) :=
  match d with
  | [] => [(k, v)]
  | (k', v') :: d' =>
      if decide (k' = k) then (k, v) :: d' else (k', v') :: dict_set d' k v
  end.

(** [del d[k]] for a key that is present. *)
Fixpoint dict_del (d : list (pystr * V)) (k : pystr) : list (pystr * V) :=
  match d with
  | [] => []
  | (k', v') :: d' =>
      if decide (k' = k) then d' else (k', v') :: dict_del d' k
  end.
End Dict.

(** ** The store: [watches] and the objects it refers to *)

Abbreviation loc := nat.

(** The innermost dictionaries, [{"base_price": .., "up_threshold": ..,
    "down_threshold": ..}]. *)
Abbreviation info := (gmap string float).

Record store := Store {
  (** the module-level [watches]: user id to that user's dictionary object *)
  watches : list (pystr * loc);
  (** the per-user dictionary objects: stock id to an info object *)
  user_dicts : gmap loc (list (pystr * loc));
  (** the info objects *)
  info_dicts : gmap loc info;
  (** the next unused object identity *)
  next_id : loc;
}.

Definition empty_store : store :=
  {| watches := []; user_dicts := ∅; info_dicts := ∅; next_id := 0 |}.

(** A reference always denotes an object; every location the program holds
    was allocated ([store_inv] below), so the defaults are never used on a
    store the program can reach. *)
Definition deref_dict (st : store) (l : loc) : list (pystr * loc) :=
  default [] (user_dicts st !! l).
Definition deref_info (st : store) (l : loc) : info :=
  default ∅ (info_dicts st !! l).

Definition set_dict (st : store) (l : loc) (d : list (pystr * loc)) : store :=
  {| watches := watches st; user_dicts := <[l := d]> (user_dicts st);
     info_dicts := info_dicts st; next_id := next_id st |}.

Definition set_info (st : store) (l : loc) (i : info) : store :=
  {| watches := watches st; user_dicts := user_dicts st;
     info_dicts := <[l := i]> (info_dicts st); next_id := next_id st |}.

(** [watches[user_id] = {}], for a user who is not in [watches] yet. *)
Definition add_user (st : store) (user_id : pystr) : store :=
  {| watches := dict_set (watches st) user_id (next_id st);
     user_dicts := <[next_id st := []]> (user_dicts st);
     info_dicts := info_dicts st; next_id := S (next_id st) |}.

(** The dictionary display of lines 230-234. *)
Definition new_info (price : float) : info :=
  <["down_threshold" := fmul price c0_95]>
    (<["up_threshold" := fmul price c1_05]>
       (<["base_price" := price]> ∅)).

(** An info object after the three assignments of a re-base to [price]. *)
Definition rebased (price : float) (i : info) : info :=
  <["down_threshold" := fmul price c0_95]>
    (<["up_threshold" := fmul price c1_05]>
       (<["base_price" := price]> i)).

(** [watches[user_id][stock_id] = {...}] for a user who is in [watches]: the
    display builds a new info object. *)
Definition put_watch (st : store) (user_id stock_id : pystr) (price : float) : store :=
  match dict_get (watches st) user_id with
  | None => st
  | Some l =>
      {| watches := watches st;
         user_dicts := <[l := dict_set (deref_dict st l) stock_id (next_id st)]> (user_dicts st);
         info_dicts := <[next_id st := new_info price]> (info_dicts st);
         next_id := S (next_id st) |}
  end.

(** What a reader of [watches[user_id][stock_id]] finds. *)
Definition entry (st : store) (user_id stock_id : pystr) : option info :=
  match dict_get (watches st) user_id with
  | None => None
  | Some l =>
      match dict_get (deref_dict st l) stock_id with
      | None => None
      | Some li => Some (deref_info st li)
      end
  end.

(** One user's watchlist as [list] shows it: the items of [watches[user_id]]
    in order. *)
Definition watchlist (st : store) (user_id : pystr) : option (list (pystr * info)) :=
  match dict_get (watches st) user_id with
  | None => None
  | Some l => Some (map (fun '(s, li) => (s, deref_info st li)) (deref_dict st l))
  end.

(** ** The price source *)

(** What the exchange answers to one query: the request or the decoding
    fails, or the body is an object whose ["msgArray"], when present, is a
    list of objects whose ["z"], when present, is a string. *)
Inductive response :=
  | NoResponse
  | Body (msgArray : option (list (option pystr))).


(** ** Replies and events *)

(** The reply texts of [handle_message], by the branch that builds them and
    the values formatted into them. *)
Inductive reply :=
  | ReplyHelp
  | ReplyNoWatches
  | ReplyList (lines : list (pystr * float))
  | ReplyStopped (stock_id : pystr)
  | ReplyNotWatching (stock_id : pystr)
  | ReplyDelUsage
  | ReplyPriceUnavailable (stock_id : pystr)
  | ReplyWatching (stock_id : pystr) (price : float)
  | ReplyUnparsed.

Inductive exn := KeyError | RuntimeError | TypeError.

Inductive direction := Up | Down.

(** What one pass of the alert loop does, as seen from outside. *)
Inductive event :=
  | Query (user_id stock_id : pystr)   (* [get_tw_stock_price(stock_id)] for this triple *)
  | Unavailable (stock_id : pystr)     (* the "no price" print *)
  | Push (user_id stock_id : pystr) (price base_price : float) (d : direction)
         (delivered : bool)            (* [push_message]; [false] when it raised *)
  | CycleError (e : exn)               (* the print of the outer handler *)
  | Sleep.                             (* [time.sleep(10)] *)

(** How many times a trace reaches the sleep at the end of a pass. *)
Fixpoint sleeps (evs : list event) : nat :=
  match evs with
  | [] => 0
  | Sleep :: evs' => S (sleeps evs')
  | _ :: evs' => sleeps evs'
  end.

(** A message on the command path, with the exchange's answer to the query
    it may make. *)
Record inbound := Inbound {
  in_user : pystr;
  in_text : pystr;
  in_quote : response;
}.

(** What surrounds the evaluation of one triple: the exchange's answer, the
    outcome of the push, and the messages that the command path handles
    while the alert thread is blocked in the query and in the push. *)
Record triple_env := TripleEnv {
  quote : response;
  during_fetch : list inbound;
  push_ok : bool;
  during_push : list inbound;
}.

Abbreviation cycle_env := (pystr -> pystr -> triple_env).

(** A quiet environment: nothing reaches the command path meanwhile. *)
Definition quiet (te : triple_env) : Prop :=
  during_fetch te = [] /\ during_push te = [].

(** The state of a run of statements: the store as the statements left it,
    what they printed or sent, and the exception that stopped them. *)
Record run := Run {
  r_store : store;
  r_events : list event;
  r_raised : option exn;
}.

(** [r] and then, unless [r] raised, [k] on the store [r] left. *)
Definition and_then (r : run) (k : store -> run) : run :=
  match r_raised r with
  | Some _ => r
  | None =>
      let r' := k (r_store r) in
      {| r_store := r_store r'; r_events := r_events r ++ r_events r';
         r_raised := r_raised r' |}
  end.

Notation "r +> k" := (and_then r k) (at level 61, left associativity).

Definition done (st : store) (evs : list event) : run :=
  {| r_store := st; r_events := evs; r_raised := None |}.
Definition raise (st : store) (evs : list event) (e : exn) : run :=
  {| r_store := st; r_events := evs; r_raised := Some e |}.

(** Sample conversions [float(s)] for the numerals used in the examples. *)
Definition f150 : float := of_pos 150.
Definition f158 : float := of_pos 158.
Definition f100 : float := of_pos 100.
Definition min_subnormal : float := S754_finite false 1 (-1074).

Definition sample_float (s : pystr) : option float :=
  if decide (s = lit "150.0000") then Some f150
  else if decide (s = lit "158.0000") then Some f158
  else if decide (s = lit "100.0000") then Some f100
  else if decide (s = lit "0.0") then Some fzero
  else if decide (s = lit "5e-324") then Some min_subnormal
  else if decide (s = lit "inf") then Some (S754_infinity false)
  else None.

Definition answer (z : string) : response := Body (Some [Some (lit z)]).

(** ** The program *)

Section Bot.

(** [str.lower], the digit property of [str.isdigit] and [float(s)] are
    tables of the Python runtime. *)
Variable py_lower : pystr -> pystr.
Variable py_isdigit_cp : N -> bool.
Variable py_float : pystr -> option float.

(** [s.isdigit()] *)
Definition isdigit (s : pystr) : bool :=
  match s with [] => false | _ => forallb py_isdigit_cp s end.

(** [get_tw_stock_price], on the exchange's answer. *)
Definition get_tw_stock_price (r : response) : option float :=
  match r with
  | NoResponse => None
  | Body msgArray =>
      match default [] msgArray with
      | [] => None
      | z :: _ =>
          match z with
          | None => None
          | Some price_str =>
              if decide (price_str = lit "-") then None
              else if decide (price_str = lit "0") then None
              else py_float price_str
          end
      end
  end.

(** [handle_message]: the store it leaves and the text it replies. *)
Definition handle_message (st : store) (user_id raw : pystr) (resp : response)
  : store * reply :=
  let text := strip raw in
  if decide (py_lower text = lit "help" \/ py_lower text = word_shuoming) then
    (st, ReplyHelp)
  else if decide (py_lower text = lit "list") then
    let user_watches :=
      match dict_get (watches st) user_id with
      | Some l => deref_dict st l
      | None => []
      end in
    match user_watches with
    | [] => (st, ReplyNoWatches)
    | _ =>
        (st, ReplyList
               (map (fun '(stock_id, li) =>
                       (stock_id, default fzero (deref_info st li !! "base_price")))
                    user_watches))
    end
  else
    let lower_text := strip (replace_fullwidth (py_lower text)) in
    if startswith (lit "del ") lower_text || startswith word_shanchu_sp lower_text then
      match split lower_text with
      | _ :: stock_id :: _ =>
          match dict_get (watches st) user_id with
          | Some l =>
              let user_watches := deref_dict st l in
              match dict_get user_watches stock_id with
              | Some _ => (set_dict st l (dict_del user_watches stock_id),
                           ReplyStopped stock_id)
              | None => (st, ReplyNotWatching stock_id)
              end
          | None => (st, ReplyNotWatching stock_id)
          end
      | _ => (st, ReplyDelUsage)
      end
    else if isdigit text then
      let stock_id := text in
      match get_tw_stock_price resp with
      | None => (st, ReplyPriceUnavailable stock_id)
      | Some price =>
          let st1 :=
            match dict_get (watches st) user_id with
            | Some _ => st
            | None => add_user st user_id
            end in
          (put_watch st1 user_id stock_id price, ReplyWatching stock_id price)
      end
    else (st, ReplyUnparsed).

(** The command path handling a batch of messages, one after the other. *)
Definition handle_all (st : store) (msgs : list inbound) : store :=
  fold_left (fun st m => fst (handle_message st (in_user m) (in_text m) (in_quote m)))
            msgs st.

(** [watches[user_id][stock_id][field] = v] *)
Definition store_field (user_id stock_id : pystr) (field : string) (v : float)
           (st : store) : run :=
  match dict_get (watches st) user_id with
  | None => raise st [] KeyError
  | Some l =>
      match dict_get (deref_dict st l) stock_id with
      | None => raise st [] KeyError
      | Some li => done (set_info st li (<[field := v]> (deref_info st li))) []
      end
  end.

(** Lines 126-128 (and 89-91): the three assignments that re-base. *)
Definition rebase (user_id stock_id : pystr) (price : float) (st : store) : run :=
  store_field user_id stock_id "base_price" price st +>
  store_field user_id stock_id "up_threshold" (fmul price c1_05) +>
  store_field user_id stock_id "down_threshold" (fmul price c0_95).

(** Lines 94-104 on the values read from [info]: [None] stands for a
    absent key, on which the comparison raises. *)
Definition crossing (price : float) (up_threshold down_threshold : option float)
  : exn + option direction :=
  match up_threshold with
  | None => inl TypeError
  | Some up =>
      if fge price up then inr (Some Up)
      else match down_threshold with
           | None => inl TypeError
           | Some down => if fle price down then inr (Some Down) else inr None
           end
  end.

(** The body of the inner [for]: one [(user_id, stock_id, info)] triple. *)
Definition process_triple (env : triple_env) (user_id stock_id : pystr) (info : loc)
           (st : store) : run :=
  let st := handle_all st (during_fetch env) in
  match get_tw_stock_price (quote env) with
  | None => done st [Query user_id stock_id; Unavailable stock_id]
  | Some price =>
      let i := deref_info st info in
      match i !! "base_price" with
      | None => done st [Query user_id stock_id] +> rebase user_id stock_id price
      | Some base_price =>
          match crossing price (i !! "up_threshold") (i !! "down_threshold") with
          | inl e => raise st [Query user_id stock_id] e
          | inr None => done st [Query user_id stock_id]
          | inr (Some d) =>
              done (handle_all st (during_push env))
                   [Query user_id stock_id;
                    Push user_id stock_id price base_price d (push_ok env)] +>
              rebase user_id stock_id price
          end
      end
  end.

(** [for stock_id, info in stocks.items()] over the live dictionary object
    [stocks]: the iterator remembers the size [len0] it started with and
    its position [len0 - remaining]; each step first checks that the size
    has not changed. *)
Fixpoint inner_loop (env : cycle_env) (user_id : pystr) (stocks : loc)
         (len0 remaining : nat) (st : store) : run :=
  let d := deref_dict st stocks in
  if negb (length d =? len0) then raise st [] RuntimeError
  else
    match remaining with
    | 0 => done st []
    | S remaining' =>
        match d !! (len0 - remaining) with
        | None => done st []
        | Some (stock_id, info) =>
            process_triple (env user_id stock_id) user_id stock_id info st +>
            inner_loop env user_id stocks len0 remaining'
        end
    end.

(** [for user_id, stocks in current_watches.items()] over the copy. *)
Fixpoint outer_loop (env : cycle_env) (current_watches : list (pystr * loc))
         (st : store) : run :=
  match current_watches with
  | [] => done st []
  | (user_id, stocks) :: rest =>
      let len0 := length (deref_dict st stocks) in
      inner_loop env user_id stocks len0 len0 st +> outer_loop env rest
  end.

(** [dict(watches)]: a new dictionary with the same keys and the same
    values, that is, the same references. *)
Definition snapshot (st : store) : list (pystr * loc) := watches st.

(** What iterating a snapshot shows in a store: for each user the items of
    the dictionary object the snapshot refers to, with the content of each
    info object. *)
Definition snapshot_contents (st : store) (snap : list (pystr * loc))
  : list (pystr * list (pystr * info)) :=
  map (fun '(u, l) => (u, map (fun '(s, li) => (s, deref_info st li)) (deref_dict st l)))
      snap.

(** One pass of [while True]: the [try] block, its handler, the sleep. *)
Definition alert_cycle (env : cycle_env) (st : store) : store * list event :=
  let r := outer_loop env (snapshot st) st in
  match r_raised r with
  | Some e => (r_store r, r_events r ++ [CycleError e; Sleep])
  | None => (r_store r, r_events r ++ [Sleep])
  end.

(** The first passes of [alert_loop], one per element of the schedule;
    each comes with the messages handled during its sleep. *)
Fixpoint alert_loop (schedule : list (cycle_env * list inbound)) (st : store)
  : store * list event :=
  match schedule with
  | [] => (st, [])
  | (env, asleep) :: schedule' =>
      let '(st1, evs1) := alert_cycle env st in
      let '(st2, evs2) := alert_loop schedule' (handle_all st1 asleep) in
      (st2, evs1 ++ evs2)
  end.

(** The triples of a snapshot, in the order the loops visit them. *)
Definition triples (st : store) (snap : list (pystr * loc)) : list (pystr * pystr) :=
  flat_map (fun '(u, l) => map (fun '(s, _) => (u, s)) (deref_dict st l)) snap.

(** The stores the program can be in: the empty one at start-up, and what
    the command path and the passes of the alert loop make of them. *)
Inductive reachable : store -> Prop :=
  | reach_start : reachable empty_store
  | reach_message st user_id raw resp :
      reachable st -> reachable (fst (handle_message st user_id raw resp))
  | reach_cycle st env :
      reachable st -> reachable (fst (alert_cycle env st)).

(** The thresholds of an info object are the ones derived from its base
    price. *)
Definition derived (i : info) : Prop :=
  exists b, i !! "base_price" = Some b /\
            i !! "up_threshold" = Some (fmul b c1_05) /\
            i !! "down_threshold" = Some (fmul b c0_95).

(** What holds of every store the program reaches. *)
Record store_inv (st : store) : Prop := {
  inv_keys : NoDup (watches st).*1;
  inv_users : NoDup (watches st).*2;
  inv_fresh : forall u l, (u, l) ∈ watches st -> l < next_id st;
  inv_alloc : forall l d s li,
      user_dicts st !! l = Some d -> (s, li) ∈ d -> is_Some (info_dicts st !! li);
  inv_derived : forall li i, info_dicts st !! li = Some i -> derived i;
}.

(** Further facts of every reachable store: the references kept in the
    per-user dictionaries are older than the next object, and no per-user
    dictionary holds a key twice. *)
Record heap_inv (st : store) : Prop := {
  inv_refs : forall l d s li,
      user_dicts st !! l = Some d -> (s, li) ∈ d -> li < next_id st;
  inv_stock_keys : forall l d, user_dicts st !! l = Some d -> NoDup d.*1;
}.

(** The text is a delete command that names [stock_id]: lines 201-205. *)
Definition delete_command (raw stock_id : pystr) : Prop :=
  let lower_text := strip (replace_fullwidth (py_lower (strip raw))) in
  startswith (lit "del ") lower_text || startswith word_shanchu_sp lower_text = true /\
  split lower_text !! 1 = Some stock_id.

(** The lines of the list reply for a watchlist: lines 193-195. *)
Definition lines_of (w : list (pystr * info)) : list (pystr * float) :=
  map (fun '(stock_id, i) => (stock_id, default fzero (i !! "base_price"))) w.

(** No available price crosses a threshold of its entry. *)
Definition calm_for (env : cycle_env) (st : store) : Prop :=
  forall u s i p,
    entry st u s = Some i -> get_tw_stock_price (quote (env u s)) = Some p ->
    crossing p (i !! "up_threshold") (i !! "down_threshold") = inr None.

(** The event is a push. *)
Definition is_push (e : event) : bool :=
  match e with Push _ _ _ _ _ _ => true | _ => false end.

End Bot.

(** ** The program on ASCII input, and sample stores *)

Definition bot_message : store -> pystr -> pystr -> response -> store * reply :=
  handle_message ascii_lower ascii_isdigit_cp sample_float.
Definition bot_triple : triple_env -> pystr -> pystr -> loc -> store -> run :=
  process_triple ascii_lower ascii_isdigit_cp sample_float.
Definition bot_cycle : cycle_env -> store -> store * list event :=
  alert_cycle ascii_lower ascii_isdigit_cp sample_float.
Definition bot_reachable : store -> Prop :=
  reachable ascii_lower ascii_isdigit_cp sample_float.

Definition user1 : pystr := lit "U1".
Definition user2 : pystr := lit "U2".

(** [user1] watches 2330 from 150.0; then also 2603 from 100.0; then
    [user2] watches 2330 as well. *)
Definition one_watch : store :=
  fst (bot_message empty_store user1 (lit "2330") (answer "150.0000")).
Definition two_watches : store :=
  fst (bot_message one_watch user1 (lit "2603") (answer "100.0000")).
Definition two_users : store :=
  fst (bot_message two_watches user2 (lit "2330") (answer "150.0000")).

(** Every query is answered 158.0, no push is delivered, and the command
    path is idle. *)
Definition rising_env : cycle_env :=
  fun _ _ => TripleEnv (answer "158.0000") [] false [].

(** Every query is answered 158.0; while the query for 2330 is in flight,
    [user1] sends "del 2330". *)
Definition deleting_env : cycle_env :=
  fun _ stock_id =>
    if decide (stock_id = lit "2330")
    then TripleEnv (answer "158.0000") [Inbound user1 (lit "del 2330") NoResponse] true []
    else TripleEnv (answer "158.0000") [] true [].

(** Every query is answered 150.0 and the command path is idle. *)
Definition steady_env : cycle_env :=
  fun _ _ => TripleEnv (answer "150.0000") [] true [].


(** The three fields of each entry that iterating a snapshot shows. *)
Definition snapshot_view (st : store) (snap : list (pystr * loc))
  : list (pystr * list (pystr * (option float * option float * option float))) :=
  map (fun '(u, es) =>
         (u, map (fun '(s, i) =>
                    (s, (i !! "base_price", i !! "up_threshold", i !! "down_threshold")))
                 (es : list (pystr * info))))
      (snapshot_contents st snap).

(** * Proofs *)

(** Closes a goal whose hypothesis [H] puts an event in a list of events
    of other kinds. *)
Ltac absent_event H :=
  repeat (apply elem_of_cons in H as [H|H]; [discriminate H|]); inversion H.

Section BotFacts.

Variable py_lower : pystr -> pystr.
Variable py_isdigit_cp : N -> bool.
Variable py_float : pystr -> option float.

Local Abbreviation isdigit := (isdigit py_isdigit_cp).
Local Abbreviation get_tw_stock_price := (get_tw_stock_price py_float).
Local Abbreviation handle_message := (handle_message py_lower py_isdigit_cp py_float).
Local Abbreviation handle_all := (handle_all py_lower py_isdigit_cp py_float).
Local Abbreviation process_triple := (process_triple py_lower py_isdigit_cp py_float).
Local Abbreviation inner_loop := (inner_loop py_lower py_isdigit_cp py_float).
Local Abbreviation outer_loop := (outer_loop py_lower py_isdigit_cp py_float).
Local Abbreviation alert_cycle := (alert_cycle py_lower py_isdigit_cp py_float).
Local Abbreviation alert_loop := (alert_loop py_lower py_isdigit_cp py_float).
Local Abbreviation reachable := (reachable py_lower py_isdigit_cp py_float).
Local Abbreviation delete_command := (delete_command py_lower).
Local Abbreviation calm_for := (calm_for py_float).

(** ** Facts about binary64 multiplication by [1.05] and [0.95] *)

Local Open Scope Z_scope.

Lemma shr_1_m r : 0 <= shr_m r -> shr_m (shr_1 r) = shr_m r / 2.
Proof.
  destruct r as [m rb sb]; simpl; intros Hm.
  destruct m as [|p|p]; [reflexivity| |lia].
  destruct p as [p|p|]; simpl.
  - apply Z.div_unique with (r := 1); lia.
  - apply Z.div_unique with (r := 0); lia.
  - reflexivity.
Qed.

Lemma shr_iter_m p : forall r, 0 <= shr_m r ->
  shr_m (SpecFloat.iter_pos shr_1 p r) = shr_m r / 2 ^ Zpos p.
Proof.
  induction p as [p IH|p IH|]; intros r Hr; simpl SpecFloat.iter_pos.
  - assert (H1 : 0 <= shr_m (shr_1 r)) by (rewrite shr_1_m by assumption; apply Z.div_pos; lia).
    assert (H2 : 0 <= shr_m (SpecFloat.iter_pos shr_1 p (shr_1 r)))
      by (rewrite IH by assumption; apply Z.div_pos; [assumption | apply Z.pow_pos_nonneg; lia]).
    rewrite IH, IH, shr_1_m by assumption.
    rewrite !Z.div_div by (try apply Z.pow_pos_nonneg; lia).
    f_equal. rewrite Pos2Z.inj_xI, <- Z.pow_add_r, <- Z.pow_succ_r by lia. f_equal. lia.
  - assert (H2 : 0 <= shr_m (SpecFloat.iter_pos shr_1 p r))
      by (rewrite IH by assumption; apply Z.div_pos; [assumption | apply Z.pow_pos_nonneg; lia]).
    rewrite IH, IH by assumption.
    rewrite !Z.div_div by (try apply Z.pow_pos_nonneg; lia).
    f_equal. rewrite Pos2Z.inj_xO, <- Z.pow_add_r by lia. f_equal. lia.
  - rewrite shr_1_m by assumption. reflexivity.
Qed.

Lemma digits2_pos_bounds p :
  2 ^ (Zpos (digits2_pos p) - 1) <= Zpos p < 2 ^ Zpos (digits2_pos p).
Proof.
  induction p as [p IH|p IH|]; simpl digits2_pos.
  - rewrite Pos2Z.inj_succ, (Pos2Z.inj_xI p).
    replace (Z.succ (Zpos (digits2_pos p)) - 1) with (Z.succ (Zpos (digits2_pos p) - 1)) by lia.
    rewrite !Z.pow_succ_r by lia.
    generalize dependent (2 ^ (Z.pos (digits2_pos p) - 1)).
    generalize (2 ^ Z.pos (digits2_pos p)). intros; lia.
  - rewrite Pos2Z.inj_succ, (Pos2Z.inj_xO p).
    replace (Z.succ (Zpos (digits2_pos p)) - 1) with (Z.succ (Zpos (digits2_pos p) - 1)) by lia.
    rewrite !Z.pow_succ_r by lia.
    generalize dependent (2 ^ (Z.pos (digits2_pos p) - 1)).
    generalize (2 ^ Z.pos (digits2_pos p)). intros; lia.
  - simpl. lia.
Qed.

Lemma round_nearest_even_bounds m l :
  m <= round_nearest_even m l <= m + 1.
Proof.
  destruct l as [|[ | | ]]; simpl; try lia.
  destruct (Z.even m); lia.
Qed.

Lemma shr_record_of_loc_m m l : shr_m (shr_record_of_loc m l) = m.
Proof. destruct l as [|[ | | ]]; reflexivity. Qed.

Lemma shr_fexp_cases m e l : 0 <= m ->
  let n := fexp prec emax (Zdigits2 m + e) - e in
  shr_m (fst (shr_fexp prec emax m e l)) = (if 0 <? n then m / 2 ^ n else m) /\
  snd (shr_fexp prec emax m e l) = (if 0 <? n then e + n else e).
Proof.
  intros Hm n. unfold shr_fexp. fold n. unfold shr.
  destruct n as [|p|p]; simpl; rewrite ?shr_record_of_loc_m; auto.
  split; [|reflexivity].
  rewrite shr_iter_m by (rewrite shr_record_of_loc_m; assumption).
  rewrite shr_record_of_loc_m. reflexivity.
Qed.

Lemma binary_round_aux_cases sx mx ex : 0 <= mx ->
  let n := fexp prec emax (Zdigits2 mx + ex) - ex in
  let m1 := if 0 <? n then mx / 2 ^ n else mx in
  let e1 := if 0 <? n then ex + n else ex in
  exists m2, m1 <= m2 <= m1 + 1 /\
    let n2 := fexp prec emax (Zdigits2 m2 + e1) - e1 in
    let m3 := if 0 <? n2 then m2 / 2 ^ n2 else m2 in
    let e3 := if 0 <? n2 then e1 + n2 else e1 in
    binary_round_aux prec emax sx mx ex loc_Exact =
      match m3 with
      | Z0 => S754_zero sx
      | Zpos m => if e3 <=? emax - prec then S754_finite sx m e3 else S754_infinity sx
      | Zneg _ => S754_nan
      end.
Proof.
  intros Hmx n m1 e1.
  destruct (shr_fexp_cases mx ex loc_Exact Hmx) as [Hm1 He1].
  fold n in Hm1, He1. fold m1 in Hm1. fold e1 in He1.
  unfold binary_round_aux.
  destruct (shr_fexp prec emax mx ex loc_Exact) as [mrs' e'] eqn:E1.
  simpl in Hm1, He1. subst e'.
  set (m2 := round_nearest_even (shr_m mrs') (loc_of_shr_record mrs')).
  assert (Hb : m1 <= m2 <= m1 + 1).
  { unfold m2. rewrite Hm1. apply round_nearest_even_bounds. }
  exists m2. split; [exact Hb|].
  assert (H0 : 0 <= m2).
  { assert (0 <= m1); [|lia]. unfold m1. destruct (0 <? n) eqn:Hn; [|assumption].
    apply Z.ltb_lt in Hn.
    apply Z.div_pos; [assumption|]. apply Z.pow_pos_nonneg; lia. }
  destruct (shr_fexp_cases m2 e1 loc_Exact H0) as [Hm3 He3].
  destruct (shr_fexp prec emax m2 e1 loc_Exact) as [mrs'' e''] eqn:E2.
  simpl in Hm3, He3. cbv zeta. rewrite <- Hm3, <- He3. reflexivity.
Qed.

Lemma shifted_intro n m e :
  shifted n m e (if 0 <? n then m / 2 ^ n else m) (if 0 <? n then e + n else e).
Proof.
  unfold shifted. destruct (Z.ltb_spec 0 n) as [Hn|Hn]; [right|left; auto].
  assert (Hp : 0 < 2 ^ n) by (apply Z.pow_pos_nonneg; lia).
  split; [assumption|]. split; [|reflexivity].
  pose proof (Z.mul_div_le m _ Hp). pose proof (Z.mul_succ_div_gt m _ Hp). lia.
Qed.

Lemma binary_round_aux_spec sx mx ex : 0 <= mx ->
  exists n m1 e1 m2 n2 m3 e3,
    n = Z.max (Zdigits2 mx + ex - 53) (-1074) - ex /\
    shifted n mx ex m1 e1 /\
    m1 <= m2 <= m1 + 1 /\
    n2 = Z.max (Zdigits2 m2 + e1 - 53) (-1074) - e1 /\
    shifted n2 m2 e1 m3 e3 /\
    binary_round_aux prec emax sx mx ex loc_Exact = pack sx m3 e3.
Proof.
  intros Hmx.
  destruct (binary_round_aux_cases sx mx ex Hmx) as (m2 & Hb & Heq).
  cbv zeta in Heq.
  eexists _, _, _, m2, _, _, _.
  split; [reflexivity|]. split; [apply shifted_intro|].
  split; [exact Hb|]. split; [reflexivity|]. split; [apply shifted_intro|].
  exact Heq.
Qed.

Lemma pow2_lt_inv a d x : 2 ^ a <= x -> x < 2 ^ d -> a < d.
Proof.
  intros H1 H2. destruct (Z.lt_ge_cases a d) as [|Hle]; [assumption|].
  pose proof (Z.pow_le_mono_r 2 d a ltac:(lia) Hle). lia.
Qed.

Lemma Zdigits2_range a b p :
  2 ^ a <= Zpos p < 2 ^ b -> a < Zdigits2 (Zpos p) <= b.
Proof.
  intros [H1 H2]. simpl. pose proof (digits2_pos_bounds p) as [H3 H4].
  pose proof (pow2_lt_inv _ _ _ H1 H4).
  pose proof (pow2_lt_inv _ _ _ H3 H2). lia.
Qed.

Lemma SFltb_finite_pos m1 e1 m2 e2 :
  e1 < e2 \/ (e1 = e2 /\ Zpos m1 < Zpos m2) ->
  SFltb (S754_finite false m1 e1) (S754_finite false m2 e2) = true.
Proof.
  unfold SFltb, SFcompare. intros [H|[-> H]].
  - apply Z.compare_lt_iff in H. rewrite H. reflexivity.
  - rewrite Z.compare_refl. rewrite Pos.compare_cont_spec. simpl.
    change (Zpos m1 < Zpos m2) with ((m1 < m2)%positive) in H.
    apply Pos.compare_lt_iff in H. rewrite H. reflexivity.
Qed.

Lemma positive_normal_inv x : positive_normal x = true ->
  exists m e, x = S754_finite false m e /\
    2 ^ 52 <= Zpos m < 2 ^ 53 /\ -1074 <= e <= 971.
Proof.
  destruct x as [| | |[|] m e]; try discriminate. unfold positive_normal. intros H.
  apply andb_true_iff in H as [Hd Hb]. apply Z.eqb_eq in Hd.
  unfold bounded, canonical_mantissa in Hb. apply andb_true_iff in Hb as [Hc He].
  apply Z.eqb_eq in Hc. apply Z.leb_le in He. rewrite Hd in Hc.
  unfold fexp, SpecFloat.emin, prec, emax in *.
  exists m, e. split; [reflexivity|].
  pose proof (digits2_pos_bounds m) as Hm. rewrite Hd in Hm. simpl Z.sub in Hm.
  split; [exact Hm|lia].
Qed.


Lemma SFltb_pack_r m e m3 e3 :
  0 < m3 -> e < e3 \/ (e = e3 /\ Zpos m < m3) ->
  SFltb (S754_finite false m e) (pack false m3 e3) = true.
Proof.
  intros H3 H. destruct m3 as [|p3|p3]; try lia. unfold pack.
  destruct (e3 <=? 971); [|reflexivity].
  apply SFltb_finite_pos. assumption.
Qed.

Lemma SFltb_pack_l m e m3 e3 :
  0 <= m3 -> e3 <= 971 -> e3 < e \/ (e3 = e /\ m3 < Zpos m) ->
  SFltb (pack false m3 e3) (S754_finite false m e) = true.
Proof.
  intros H3 He H. destruct m3 as [|p3|p3]; try lia; unfold pack; [reflexivity|].
  apply Z.leb_le in He. rewrite He.
  apply SFltb_finite_pos. assumption.
Qed.

(* the normalisation pass after rounding: a mantissa that reached 2^53 is
   halved, any other 53-bit mantissa is kept *)
Lemma renormalise m2 e1 n2 m3 e3 :
  2 ^ 52 <= m2 <= 2 ^ 53 -> -1074 <= e1 ->
  n2 = Z.max (Zdigits2 m2 + e1 - 53) (-1074) - e1 ->
  shifted n2 m2 e1 m3 e3 ->
  (m3 = m2 /\ e3 = e1 /\ m2 < 2 ^ 53) \/ (m3 = 2 ^ 52 /\ e3 = e1 + 1 /\ m2 = 2 ^ 53).
Proof.
  intros Hm He Hn S2.
  destruct m2 as [|p2|p2]; try (exfalso; change (2 ^ 52) with 4503599627370496 in Hm; lia).
  pose proof (digits2_pos_bounds p2) as Hd.
  assert (Hr : 52 < Zdigits2 (Zpos p2) <= 54).
  { apply Zdigits2_range. change (2 ^ 54) with 18014398509481984.
    change (2 ^ 53) with 9007199254740992 in Hm. lia. }
  simpl Zdigits2 in *. set (d2 := Zpos (digits2_pos p2)) in *. clearbody d2.
  assert (Hc : d2 = 53 \/ d2 = 54) by lia. destruct Hc as [-> | ->].
  - change (2 ^ 53) with 9007199254740992 in *.
    destruct S2 as [(?&?&?)|(?&?&?)]; [left; lia|lia].
  - change (2 ^ (54 - 1)) with 9007199254740992 in Hd.
    change (2 ^ 53) with 9007199254740992 in *.
    change (2 ^ 52) with 4503599627370496 in *.
    destruct S2 as [(?&?&?)|(?&S2&?)]; [lia|].
    assert (Hn1 : n2 = 1) by lia. rewrite Hn1 in *. change (2 ^ 1) with 2 in S2. right; lia.
Qed.

Lemma fmul_c1_05_gt x :
  positive_normal x = true -> SFltb x (fmul x c1_05) = true.
Proof.
  intros Hx. destruct (positive_normal_inv x Hx) as (m & e & -> & Hm & He).
  unfold fmul, c1_05, SFmul. simpl xorb.
  destruct (binary_round_aux_spec false (Zpos (m * 4728779608739021)) (e + -52) ltac:(lia))
    as (n & m1 & e1 & m2 & n2 & m3 & e3 & Hn & S1 & Hb & Hn2 & S2 & ->).
  assert (Hd : 104 < Zdigits2 (Zpos (m * 4728779608739021)) <= 106).
  { apply Zdigits2_range. rewrite Pos2Z.inj_mul.
    change (2 ^ 52) with 4503599627370496 in Hm.
    change (2 ^ 53) with 9007199254740992 in Hm.
    change (2 ^ 104) with 20282409603651670423947251286016.
    change (2 ^ 106) with 81129638414606681695789005144064. nia. }
  pose proof (digits2_pos_bounds (m * 4728779608739021)) as HP.
  simpl Zdigits2 in *. rewrite Pos2Z.inj_mul in S1, HP.
  set (d := Zpos (digits2_pos (m * 4728779608739021))) in *. clearbody d.
  assert (H12 : 2 ^ 52 <= m2 <= 2 ^ 53 /\ -1074 <= e1 /\
                (e < e1 \/ (e = e1 /\ Zpos m < m2))).
  { change (2 ^ 52) with 4503599627370496 in *.
    change (2 ^ 53) with 9007199254740992 in *.
    assert (Hc : d = 105 \/ d = 106) by lia. destruct Hc as [-> | ->].
    - change (2 ^ (105 - 1)) with 20282409603651670423947251286016 in HP.
      change (2 ^ 105) with 40564819207303340847894502572032 in HP.
      destruct S1 as [(?&?&?)|(_&S1&?)]; [lia|].
      assert (Hn52 : n = 52) by lia. rewrite Hn52 in *. change (2 ^ 52) with 4503599627370496 in S1. lia.
    - change (2 ^ (106 - 1)) with 40564819207303340847894502572032 in HP.
      change (2 ^ 106) with 81129638414606681695789005144064 in HP.
      destruct S1 as [(?&?&?)|(_&S1&?)]; [lia|].
      assert (Hn53 : n = 53) by lia. rewrite Hn53 in *. change (2 ^ 53) with 9007199254740992 in S1. lia. }
  destruct H12 as (Hm2 & He1 & Hlt).
  destruct (renormalise m2 e1 n2 m3 e3 Hm2 He1 Hn2 S2) as [(-> & -> & ?)|(-> & -> & ?)].
  - apply SFltb_pack_r; [change (2 ^ 52) with 4503599627370496 in Hm2|]; lia.
  - apply SFltb_pack_r; [reflexivity|]. lia.
Qed.

Lemma fmul_c0_95_lt x :
  positive_normal x = true -> SFltb (fmul x c0_95) x = true.
Proof.
  intros Hx. destruct (positive_normal_inv x Hx) as (m & e & -> & Hm & He).
  unfold fmul, c0_95, SFmul. simpl xorb.
  destruct (binary_round_aux_spec false (Zpos (m * 8556839292003942)) (e + -53) ltac:(lia))
    as (n & m1 & e1 & m2 & n2 & m3 & e3 & Hn & S1 & Hb & Hn2 & S2 & ->).
  assert (Hd : 104 < Zdigits2 (Zpos (m * 8556839292003942)) <= 106).
  { apply Zdigits2_range. rewrite Pos2Z.inj_mul.
    change (2 ^ 52) with 4503599627370496 in Hm.
    change (2 ^ 53) with 9007199254740992 in Hm.
    change (2 ^ 104) with 20282409603651670423947251286016.
    change (2 ^ 106) with 81129638414606681695789005144064. nia. }
  pose proof (digits2_pos_bounds (m * 8556839292003942)) as HP.
  simpl Zdigits2 in *. rewrite Pos2Z.inj_mul in S1, HP.
  set (d := Zpos (digits2_pos (m * 8556839292003942))) in *. clearbody d.
  change (2 ^ 52) with 4503599627370496 in Hm.
  change (2 ^ 53) with 9007199254740992 in Hm.
  assert (Hn' : n = 52 /\ d = 105 /\ -1073 <= e \/ n = 53) by lia.
  destruct S1 as [(?&?&?)|(_&S1&He1)]; [lia|].
  destruct Hn' as [(-> & -> & He')| ->].
  - (* the product has 105 bits and is shifted by 52: the exponent drops by one *)
    change (2 ^ (105 - 1)) with 20282409603651670423947251286016 in HP.
    change (2 ^ 105) with 40564819207303340847894502572032 in HP.
    change (2 ^ 52) with 4503599627370496 in S1.
    assert (Hm2 : 2 ^ 52 <= m2 <= 2 ^ 53).
    { change (2 ^ 52) with 4503599627370496. change (2 ^ 53) with 9007199254740992. lia. }
    destruct (renormalise m2 e1 n2 m3 e3 Hm2 ltac:(lia) Hn2 S2) as [(-> & -> & ?)|(-> & -> & Hm2')].
    + apply SFltb_pack_l; lia.
    + change (2 ^ 53) with 9007199254740992 in Hm2'.
      apply SFltb_pack_l; [lia|lia|]. right. change (2 ^ 52) with 4503599627370496. lia.
  - (* shifted by 53: the exponent is kept and the mantissa shrinks *)
    change (2 ^ 53) with 9007199254740992 in S1.
    assert (Hm2 : 0 <= m2 < Zpos m) by lia.
    assert (Hn2' : n2 <= 0).
    { destruct m2 as [|p2|p2]; [simpl in Hn2; lia| |lia].
      assert (Hr : -1 < Zdigits2 (Zpos p2) <= 53).
      { apply Zdigits2_range. change (2 ^ 53) with 9007199254740992.
        change (2 ^ (-1)) with 0. lia. }
      lia. }
    destruct S2 as [(_ & -> & ->)|(?&?&?)]; [|lia].
    apply SFltb_pack_l; lia.
Qed.

Local Close Scope Z_scope.

(** ** Facts about [strip], [split] and [startswith] *)

Lemma lstrip_head s c t : lstrip s = c :: t -> isspace c = false.
Proof.
  induction s as [|a s IH]; simpl; [discriminate|].
  destruct (isspace a) eqn:Ha; [exact IH|].
  intros [= <- _]. exact Ha.
Qed.

(** A stripped string does not end in whitespace. *)
Lemma strip_last s t c : strip s = t ++ [c] -> isspace c = false.
Proof.
  unfold strip, rstrip. intros H.
  apply (f_equal (@rev N)) in H. rewrite rev_involutive, rev_app_distr in H.
  simpl in H. exact (lstrip_head _ _ _ H).
Qed.

Lemma startswith_app p : forall s, startswith p s = true -> exists r, s = p ++ r.
Proof.
  induction p as [|a p IH]; intros s H; simpl in H.
  - exists s. reflexivity.
  - destruct s as [|b s]; [discriminate|].
    apply andb_true_iff in H as [Hab Hp]. apply N.eqb_eq in Hab. subst b.
    destruct (IH s Hp) as [r ->]. exists r. reflexivity.
Qed.

(** A run being read, or a character that is not whitespace still to come,
    yields a token. *)
Lemma split_aux_nonempty s : forall cur,
  cur <> [] \/ (exists c, c ∈ s /\ isspace c = false) -> split_aux s cur <> [].
Proof.
  induction s as [|a s IH]; intros cur H; simpl.
  - destruct H as [H|(c & Hc & _)]; [|inversion Hc].
    destruct cur; [contradiction|discriminate].
  - destruct (isspace a) eqn:Ha.
    + destruct cur as [|x cur]; [|discriminate].
      apply IH. right. destruct H as [H|(c & Hc & Hs)]; [contradiction|].
      exists c. split; [|exact Hs].
      apply elem_of_cons in Hc as [->|Hc]; [congruence|exact Hc].
    + apply IH. left. discriminate.
Qed.

(** The text after a delete word and its space holds a second token. *)
Lemma del_command_tokens s :
  startswith (lit "del ") s || startswith word_shanchu_sp s = true ->
  (forall t c, s = t ++ [c] -> isspace c = false) ->
  exists a b rest, split s = a :: b :: rest.
Proof.
  intros Hp Hlast.
  assert (Hr : forall p r, s = p ++ 0x20%N :: r ->
               exists c, c ∈ r /\ isspace c = false).
  { intros p r ->. destruct (exists_last (l := r)) as (r' & c & ->).
    - intros ->. discriminate (Hlast p 0x20%N eq_refl).
    - exists c. split; [set_solver|].
      apply (Hlast (p ++ 0x20%N :: r')). rewrite <- app_assoc. reflexivity. }
  apply orb_true_iff in Hp as [Hp|Hp]; apply startswith_app in Hp as [r ->].
  - destruct (Hr (lit "del") r eq_refl) as (c & Hc & Hs).
    pose proof (split_aux_nonempty r [] (or_intror (ex_intro _ c (conj Hc Hs)))) as Hne.
    unfold split. simpl. destruct (split_aux r []) as [|b rest]; [contradiction|].
    eauto.
  - destruct (Hr [0x522A; 0x9664]%N r eq_refl) as (c & Hc & Hs).
    pose proof (split_aux_nonempty r [] (or_intror (ex_intro _ c (conj Hc Hs)))) as Hne.
    unfold split. simpl. destruct (split_aux r []) as [|b rest]; [contradiction|].
    eauto.
Qed.

(** ** Facts about dictionaries *)

Section DictFacts.
Context {V : Type}.
Implicit Types (d : list (pystr * V)) (k : pystr) (v : V).

Lemma dict_get_elem d k v : dict_get d k = Some v -> (k, v) ∈ d.
Proof.
  induction d as [|[k' v'] d IH]; simpl; [discriminate|].
  case_decide as Hk; [intros [= ->]; subst; left | intros H; right; auto].
Qed.

Lemma dict_get_key d k v : (k, v) ∈ d -> is_Some (dict_get d k).
Proof.
  induction d as [|[k' v'] d IH]; simpl; intros H; [inversion H|].
  case_decide as Hk; [eauto|].
  apply elem_of_cons in H as [[= -> ->]|H]; [contradiction|auto].
Qed.

Lemma dict_get_set_eq d k v : dict_get (dict_set d k v) k = Some v.
Proof.
  induction d as [|[k' v'] d IH]; simpl; repeat (case_decide; simpl); congruence.
Qed.

Lemma dict_get_set_ne d k k' v : k <> k' -> dict_get (dict_set d k v) k' = dict_get d k'.
Proof.
  intros Hne.
  induction d as [|[k0 v0] d IH]; simpl; repeat (case_decide; simpl); congruence.
Qed.

Lemma dict_get_del_ne d k k' : k <> k' -> dict_get (dict_del d k) k' = dict_get d k'.
Proof.
  intros Hne.
  induction d as [|[k0 v0] d IH]; simpl; repeat (case_decide; simpl); congruence.
Qed.

Lemma dict_set_new d k v : dict_get d k = None -> dict_set d k v = d ++ [(k, v)].
Proof.
  induction d as [|[k' v'] d IH]; simpl; [reflexivity|].
  case_decide as Hk; [discriminate|]. intros Hg. rewrite IH by exact Hg. reflexivity.
Qed.

Lemma elem_of_dict_set d k v x : x ∈ dict_set d k v -> x ∈ d \/ x = (k, v).
Proof.
  induction d as [|[k' v'] d IH]; simpl.
  - intros H. apply list_elem_of_singleton in H. auto.
  - case_decide as Hk; intros Hx; apply elem_of_cons in Hx as [->|Hx]; auto.
    + left. right. exact Hx.
    + left. left.
    + destruct (IH Hx) as [?|?]; [left; right; assumption|auto].
Qed.

Lemma elem_of_dict_del d k x : x ∈ dict_del d k -> x ∈ d.
Proof.
  induction d as [|[k' v'] d IH]; simpl; [auto|].
  case_decide as Hk; intros Hx; [right; exact Hx|].
  apply elem_of_cons in Hx as [->|Hx]; [left|right; auto].
Qed.

End DictFacts.

(** ** Facts about the store *)

Lemma rebased_fields price i :
  rebased price i !! "base_price" = Some price /\
  rebased price i !! "up_threshold" = Some (fmul price c1_05) /\
  rebased price i !! "down_threshold" = Some (fmul price c0_95).
Proof.
  unfold rebased.
  rewrite lookup_insert_ne, lookup_insert_ne, lookup_insert_eq by discriminate.
  rewrite lookup_insert_ne, lookup_insert_eq by discriminate.
  rewrite lookup_insert_eq. auto.
Qed.

Lemma derived_rebased price i : derived (rebased price i).
Proof. exists price. apply rebased_fields. Qed.

Lemma derived_new_info price : derived (new_info price).
Proof. exact (derived_rebased price ∅). Qed.

Lemma deref_dict_elem st l x :
  x ∈ deref_dict st l -> exists d, user_dicts st !! l = Some d /\ x ∈ d.
Proof.
  unfold deref_dict. destruct (user_dicts st !! l) as [d|]; simpl; [eauto|].
  intros H. inversion H.
Qed.

Lemma store_inv_empty : store_inv empty_store.
Proof.
  split; simpl.
  - constructor.
  - constructor.
  - intros u l H. inversion H.
  - intros l d s li H. rewrite lookup_empty in H. discriminate.
  - intros li i H. rewrite lookup_empty in H. discriminate.
Qed.

Lemma store_inv_add_user st u :
  store_inv st -> dict_get (watches st) u = None -> store_inv (add_user st u).
Proof.
  intros [Hk Hu Hf Ha Hd] Hnew. split; simpl.
  - rewrite dict_set_new by exact Hnew. rewrite fmap_app. apply NoDup_app.
    split; [exact Hk|]. split; [|apply NoDup_singleton].
    intros x Hx Hx'. apply list_elem_of_fmap in Hx as ([u' l'] & -> & Hin).
    apply list_elem_of_singleton in Hx'. simpl in Hx'. subst u'.
    apply dict_get_key in Hin as [? Hin]. congruence.
  - rewrite dict_set_new by exact Hnew. rewrite fmap_app. apply NoDup_app.
    split; [exact Hu|]. split; [|apply NoDup_singleton].
    intros x Hx Hx'. apply list_elem_of_fmap in Hx as ([u' l'] & -> & Hin).
    apply list_elem_of_singleton in Hx'. simpl in Hx'.
    specialize (Hf _ _ Hin). lia.
  - intros u0 l0 Hin. apply elem_of_dict_set in Hin as [Hin|[= _ ->]]; [|lia].
    specialize (Hf _ _ Hin). lia.
  - intros l0 d0 s0 li0 Hl Hin. apply lookup_insert_Some in Hl as [[_ <-]|[_ Hl]].
    + inversion Hin.
    + exact (Ha _ _ _ _ Hl Hin).
  - exact Hd.
Qed.

Lemma store_inv_put_watch st u s price :
  store_inv st -> store_inv (put_watch st u s price).
Proof.
  intros Hinv. unfold put_watch.
  destruct (dict_get (watches st) u) as [l|]; [|exact Hinv].
  destruct Hinv as [Hk Hu Hf Ha Hd]. split; simpl.
  - exact Hk.
  - exact Hu.
  - intros u0 l0 Hin. specialize (Hf _ _ Hin). lia.
  - intros l0 d0 s0 li0 Hl Hin. apply lookup_insert_is_Some'.
    apply lookup_insert_Some in Hl as [[_ <-]|[_ Hl]].
    + apply elem_of_dict_set in Hin as [Hin|[= _ ->]]; [right|left; reflexivity].
      apply deref_dict_elem in Hin as (d1 & Hl1 & Hin1). exact (Ha _ _ _ _ Hl1 Hin1).
    + right. exact (Ha _ _ _ _ Hl Hin).
  - intros li0 i0 Hl. apply lookup_insert_Some in Hl as [[_ <-]|[_ Hl]].
    + apply derived_new_info.
    + exact (Hd _ _ Hl).
Qed.

Lemma store_inv_del st l s :
  store_inv st -> store_inv (set_dict st l (dict_del (deref_dict st l) s)).
Proof.
  intros [Hk Hu Hf Ha Hd]. split; simpl; try assumption.
  intros l0 d0 s0 li0 Hl Hin. apply lookup_insert_Some in Hl as [[_ <-]|[_ Hl]].
  - apply elem_of_dict_del, deref_dict_elem in Hin as (d1 & Hl1 & Hin1).
    exact (Ha _ _ _ _ Hl1 Hin1).
  - exact (Ha _ _ _ _ Hl Hin).
Qed.

Lemma store_inv_set_info st li i :
  store_inv st -> derived i -> store_inv (set_info st li i).
Proof.
  intros [Hk Hu Hf Ha Hd] Hi. split; simpl; try assumption.
  - intros l0 d0 s0 li0 Hl Hin. apply lookup_insert_is_Some'. right.
    exact (Ha _ _ _ _ Hl Hin).
  - intros li0 i0 Hl. apply lookup_insert_Some in Hl as [[_ <-]|[_ Hl]].
    + exact Hi.
    + exact (Hd _ _ Hl).
Qed.

Lemma handle_message_inv st user_id raw resp :
  store_inv st -> store_inv (fst (handle_message st user_id raw resp)).
Proof.
  intros Hinv. unfold handle_message.
  case_decide; [exact Hinv|].
  case_decide.
  { destruct (match dict_get (watches st) user_id with
              | Some l => deref_dict st l | None => [] end); exact Hinv. }
  destruct (startswith _ _ || startswith _ _).
  { destruct (split _) as [|tok [|stock_id toks]]; try exact Hinv.
    destruct (dict_get (watches st) user_id) as [lu|]; [|exact Hinv].
    destruct (dict_get (deref_dict st lu) stock_id); [|exact Hinv].
    apply store_inv_del. exact Hinv. }
  destruct (isdigit _); [|exact Hinv].
  destruct (get_tw_stock_price resp) as [price|]; [|exact Hinv].
  simpl. apply store_inv_put_watch.
  destruct (dict_get (watches st) user_id) eqn:Hu; [exact Hinv|].
  apply store_inv_add_user; assumption.
Qed.

Lemma handle_all_inv msgs : forall st,
  store_inv st -> store_inv (handle_all st msgs).
Proof.
  induction msgs as [|m msgs IH]; intros st Hinv; simpl; [exact Hinv|].
  apply IH, handle_message_inv, Hinv.
Qed.

(** ** Facts about the alert loop *)

Lemma deref_info_set_info st li i : deref_info (set_info st li i) li = i.
Proof. unfold deref_info. simpl. rewrite lookup_insert_eq. reflexivity. Qed.

Lemma set_info_twice st li i i' : set_info (set_info st li i) li i' = set_info st li i'.
Proof. unfold set_info. simpl. rewrite insert_insert_eq. reflexivity. Qed.

Lemma and_then_done st k : done st [] +> k = k st.
Proof. unfold and_then. simpl. destruct (k st). reflexivity. Qed.

Lemma store_field_run u s f v st l li :
  dict_get (watches st) u = Some l ->
  dict_get (deref_dict st l) s = Some li ->
  store_field u s f v st = done (set_info st li (<[f := v]> (deref_info st li))) [].
Proof. intros Hu Hs. unfold store_field. rewrite Hu, Hs. reflexivity. Qed.

(** The three assignments of a re-base either all happen, on the info
    object that [watches[user_id][stock_id]] denotes, or the first one
    raises [KeyError] and nothing is written. *)
Lemma rebase_run u s price st :
  rebase u s price st =
    match dict_get (watches st) u with
    | None => raise st [] KeyError
    | Some l =>
        match dict_get (deref_dict st l) s with
        | None => raise st [] KeyError
        | Some li => done (set_info st li (rebased price (deref_info st li))) []
        end
    end.
Proof.
  unfold rebase.
  destruct (dict_get (watches st) u) as [l|] eqn:Hu;
    [|unfold store_field; rewrite Hu; reflexivity].
  destruct (dict_get (deref_dict st l) s) as [li|] eqn:Hs;
    [|unfold store_field; rewrite Hu, Hs; reflexivity].
  rewrite (store_field_run _ _ _ _ st l li Hu Hs), and_then_done.
  rewrite (store_field_run _ _ _ _ (set_info st li _) l li Hu Hs), and_then_done.
  rewrite (store_field_run _ _ _ _ (set_info (set_info st li _) li _) l li Hu Hs).
  rewrite !deref_info_set_info, !set_info_twice. reflexivity.
Qed.

(** Re-basing an entry that is no longer in the store raises [KeyError] and
    writes nothing. *)
Lemma rebase_absent u s price st :
  entry st u s = None -> rebase u s price st = raise st [] KeyError.
Proof.
  unfold entry. rewrite rebase_run.
  destruct (dict_get (watches st) u) as [l|]; [|reflexivity].
  destruct (dict_get (deref_dict st l) s); [discriminate|reflexivity].
Qed.

Lemma rebase_inv u s price st :
  store_inv st -> store_inv (r_store (rebase u s price st)).
Proof.
  intros Hinv. rewrite rebase_run.
  destruct (dict_get (watches st) u) as [l|]; [|exact Hinv].
  destruct (dict_get (deref_dict st l) s) as [li|]; [|exact Hinv].
  apply store_inv_set_info; [exact Hinv|apply derived_rebased].
Qed.

Lemma and_then_inv (P : store -> Prop) r k :
  P (r_store r) -> (forall st, P st -> P (r_store (k st))) -> P (r_store (r +> k)).
Proof.
  intros Hr Hk. unfold and_then. destruct (r_raised r); [exact Hr|].
  simpl. apply Hk, Hr.
Qed.

Lemma process_triple_inv env u s li st :
  store_inv st -> store_inv (r_store (process_triple env u s li st)).
Proof.
  intros Hinv. unfold process_triple.
  pose proof (handle_all_inv (during_fetch env) st Hinv) as H1.
  destruct (get_tw_stock_price (quote env)) as [price|]; [|exact H1].
  destruct (deref_info _ li !! "base_price") as [base|].
  - destruct (crossing _ _ _) as [e|[d|]]; try exact H1.
    apply and_then_inv; [apply handle_all_inv, H1|].
    intros st' Hst'. apply rebase_inv, Hst'.
  - apply and_then_inv; [exact H1|]. intros st' Hst'. apply rebase_inv, Hst'.
Qed.

Lemma inner_loop_inv env u stocks len0 remaining : forall st,
  store_inv st -> store_inv (r_store (inner_loop env u stocks len0 remaining st)).
Proof.
  induction remaining as [|n IH]; intros st Hinv; simpl.
  - destruct (negb _); exact Hinv.
  - destruct (negb _); [exact Hinv|].
    destruct (deref_dict st stocks !! (len0 - S n)) as [[s li]|]; [|exact Hinv].
    apply and_then_inv; [apply process_triple_inv, Hinv|exact IH].
Qed.

Lemma outer_loop_inv env snap : forall st,
  store_inv st -> store_inv (r_store (outer_loop env snap st)).
Proof.
  induction snap as [|[u l] snap IH]; intros st Hinv; simpl; [exact Hinv|].
  apply and_then_inv; [apply inner_loop_inv, Hinv|exact IH].
Qed.

Lemma alert_cycle_inv env st :
  store_inv st -> store_inv (fst (alert_cycle env st)).
Proof.
  intros Hinv. unfold alert_cycle.
  pose proof (outer_loop_inv env (snapshot st) st Hinv) as H.
  destruct (r_raised _); exact H.
Qed.

(** Every store the program reaches is well formed, and every info object
    in it has the thresholds derived from its base price. *)
Lemma reachable_inv st : reachable st -> store_inv st.
Proof.
  induction 1 as [|st u raw resp _ IH|st env _ IH].
  - apply store_inv_empty.
  - apply handle_message_inv, IH.
  - apply alert_cycle_inv, IH.
Qed.

(** ** The command path *)

(** Facts of the Unicode database: a digit is not whitespace and is none
    of the first letters of the command words (h, l, d, U+8AAA, U+522A), and
    lower-casing leaves a string of digits as it is. *)
Hypothesis digit_not_space : forall c, py_isdigit_cp c = true -> isspace c = false.
Hypothesis digit_not_letter : forall c, py_isdigit_cp c = true ->
  c ∉ [0x68; 0x6C; 0x64; 0x8AAA; 0x522A]%N.
Hypothesis lower_digits : forall t, isdigit t = true -> py_lower t = t.

Lemma lstrip_id c s : isspace c = false -> lstrip (c :: s) = c :: s.
Proof. intros H. simpl. rewrite H. reflexivity. Qed.

Lemma isdigit_inv t : isdigit t = true ->
  exists c t', t = c :: t' /\ forallb py_isdigit_cp t = true.
Proof. destruct t as [|c t']; [discriminate|]. intros H. eauto. Qed.

Lemma strip_digits t : isdigit t = true -> strip t = t.
Proof.
  intros H. destruct (isdigit_inv t H) as (c & t' & -> & Hall).
  rewrite forallb_forall in Hall.
  unfold strip, rstrip. rewrite lstrip_id by (apply digit_not_space, Hall; left; reflexivity).
  destruct (exists_last (l := c :: t')) as (r & z & Hr); [discriminate|].
  rewrite Hr, rev_app_distr. change (rev [z] ++ rev r) with (z :: rev r).
  rewrite lstrip_id.
  - simpl. rewrite rev_involutive. reflexivity.
  - apply digit_not_space, Hall. rewrite Hr. apply in_or_app. right. left. reflexivity.
Qed.

Lemma replace_fullwidth_digits t : isdigit t = true -> replace_fullwidth t = t.
Proof.
  intros H. destruct (isdigit_inv t H) as (c & t' & -> & Hall).
  rewrite forallb_forall in Hall. unfold replace_fullwidth.
  rewrite <- (map_id (c :: t')) at 2. apply map_ext_in. intros a Ha.
  destruct (N.eqb_spec a fullwidth_space) as [->|]; [|reflexivity].
  specialize (digit_not_space _ (Hall _ Ha)). discriminate.
Qed.

Lemma startswith_head_ne a p c s : a <> c -> startswith (a :: p) (c :: s) = false.
Proof. intros Hne. simpl. apply N.eqb_neq in Hne. rewrite Hne. reflexivity. Qed.

(** A string of digits is none of the other commands. *)
Lemma digits_routing t : isdigit t = true ->
  ~ (py_lower t = lit "help" \/ py_lower t = word_shuoming) /\
  py_lower t <> lit "list" /\
  startswith (lit "del ") (strip (replace_fullwidth (py_lower t)))
    || startswith word_shanchu_sp (strip (replace_fullwidth (py_lower t))) = false.
Proof.
  intros H. rewrite (lower_digits t H), (replace_fullwidth_digits t H), (strip_digits t H).
  destruct (isdigit_inv t H) as (c & t' & -> & Hall).
  rewrite forallb_forall in Hall.
  pose proof (digit_not_letter c (Hall c (or_introl eq_refl))) as Hc.
  repeat split.
  - intros [Heq|Heq]; apply (f_equal head) in Heq; vm_compute in Heq;
      injection Heq as ->; apply Hc; set_solver.
  - intros Heq. apply (f_equal head) in Heq. vm_compute in Heq.
    injection Heq as ->. apply Hc. set_solver.
  - change (lit "del ") with (0x64%N :: lit "el "). unfold word_shanchu_sp.
    rewrite !startswith_head_ne; [reflexivity| |]; intros <-; apply Hc; set_solver.
Qed.

(** What [handle_message] does with a string of digits. *)
Lemma handle_message_digits st user_id raw resp :
  isdigit (strip raw) = true ->
  handle_message st user_id raw resp =
    match get_tw_stock_price resp with
    | None => (st, ReplyPriceUnavailable (strip raw))
    | Some price =>
        (put_watch (match dict_get (watches st) user_id with
                    | Some _ => st
                    | None => add_user st user_id
                    end) user_id (strip raw) price,
         ReplyWatching (strip raw) price)
    end.
Proof.
  intros H. destruct (digits_routing _ H) as (H1 & H2 & H3).
  unfold handle_message. rewrite H3, H.
  repeat case_decide; try contradiction; reflexivity.
Qed.


(** ** A pass of the alert loop that nothing interferes with *)

Lemma dict_get_nodup {V} (d : list (pystr * V)) k v :
  NoDup d.*1 -> (k, v) ∈ d -> dict_get d k = Some v.
Proof.
  induction d as [|[k' v'] d IH]; simpl; intros Hnd Hin; [inversion Hin|].
  apply NoDup_cons in Hnd as [Hk' Hnd].
  apply elem_of_cons in Hin as [[= -> ->]|Hin].
  - case_decide; [reflexivity|contradiction].
  - case_decide as Hk; [|auto]. subst k'. exfalso. apply Hk'.
    apply list_elem_of_fmap. exists (k, v). auto.
Qed.

Lemma crossing_total price up down :
  exists c, crossing price (Some up) (Some down) = inr c.
Proof. unfold crossing. destruct (fge price up), (fle price down); eauto. Qed.

(** An entry that is in the store holds an info object with a base price
    and the thresholds derived from it. *)
Lemma member_derived st l s li :
  store_inv st -> (s, li) ∈ deref_dict st l -> derived (deref_info st li).
Proof.
  intros Hinv Hin. apply deref_dict_elem in Hin as (d & Hl & Hin).
  destruct (inv_alloc st Hinv _ _ _ _ Hl Hin) as [i Hi].
  unfold deref_info. rewrite Hi. exact (inv_derived st Hinv _ _ Hi).
Qed.

(** One triple, evaluated while the command path is idle: no price, no
    crossing, or a push followed by the re-base, whether or not the push
    was delivered. *)
Lemma process_triple_quiet env u s li st l :
  quiet env -> store_inv st ->
  dict_get (watches st) u = Some l -> (s, li) ∈ deref_dict st l ->
  exists b li',
    deref_info st li !! "base_price" = Some b /\
    dict_get (deref_dict st l) s = Some li' /\
    process_triple env u s li st =
      match get_tw_stock_price (quote env) with
      | None => done st [Query u s; Unavailable s]
      | Some price =>
          match crossing price (Some (fmul b c1_05)) (Some (fmul b c0_95)) with
          | inr (Some d) =>
              done (set_info st li' (rebased price (deref_info st li')))
                   [Query u s; Push u s price b d (push_ok env)]
          | _ => done st [Query u s]
          end
      end.
Proof.
  intros [Hf Hp] Hinv Hu Hin.
  destruct (member_derived st l s li Hinv Hin) as (b & Hb & Hup & Hdown).
  destruct (dict_get_key _ _ _ Hin) as [li' Hli'].
  exists b, li'. split; [exact Hb|]. split; [exact Hli'|].
  unfold process_triple. rewrite Hf, Hp. simpl handle_all.
  destruct (get_tw_stock_price (quote env)) as [price|]; [|reflexivity].
  rewrite Hb, Hup, Hdown.
  destruct (crossing_total price (fmul b c1_05) (fmul b c0_95)) as [c ->].
  destruct c as [d|]; [|reflexivity].
  change (done st [Query u s; Push u s price b d (push_ok env)] +> rebase u s price)
    with {| r_store := r_store (rebase u s price st);
            r_events := [Query u s; Push u s price b d (push_ok env)]
                          ++ r_events (rebase u s price st);
            r_raised := r_raised (rebase u s price st) |}.
  rewrite rebase_run, Hu, Hli'. reflexivity.
Qed.

Lemma process_triple_quiet_frame env u s li st l :
  quiet env -> store_inv st ->
  dict_get (watches st) u = Some l -> (s, li) ∈ deref_dict st l ->
  let r := process_triple env u s li st in
  r_raised r = None /\ watches (r_store r) = watches st /\
  user_dicts (r_store r) = user_dicts st /\
  Query u s ∈ r_events r /\ (forall e, CycleError e ∉ r_events r).
Proof.
  intros Hq Hinv Hu Hin.
  destruct (process_triple_quiet env u s li st l Hq Hinv Hu Hin) as (b & li' & _ & _ & ->).
  destruct (get_tw_stock_price (quote env)) as [price|];
    [destruct (crossing _ _ _) as [x|[d|]]|]; simpl;
    (repeat split; [left|intros e He; absent_event He]).
Qed.

Lemma inner_loop_quiet env u l len0 :
  (forall s, quiet (env u s)) ->
  forall remaining st,
    store_inv st -> dict_get (watches st) u = Some l ->
    length (deref_dict st l) = len0 ->
    let r := inner_loop env u l len0 remaining st in
    r_raised r = None /\ watches (r_store r) = watches st /\
    user_dicts (r_store r) = user_dicts st /\
    (forall i s li, len0 - remaining <= i -> deref_dict st l !! i = Some (s, li) ->
                    Query u s ∈ r_events r) /\
    (forall e, CycleError e ∉ r_events r).
Proof.
  intros Hq. induction remaining as [|n IH]; intros st Hinv Hu Hlen; simpl.
  - rewrite Hlen, Nat.eqb_refl. simpl. repeat split; [|intros e He; inversion He].
    intros i s li Hi Hl. apply lookup_lt_Some in Hl. lia.
  - rewrite Hlen, Nat.eqb_refl. simpl.
    destruct (deref_dict st l !! (len0 - S n)) as [[s li]|] eqn:Hl.
    + pose proof (proj2 (list_elem_of_lookup _ _) (ex_intro _ _ Hl)) as Hin.
      destruct (process_triple_quiet_frame (env u s) u s li st l (Hq s) Hinv Hu Hin)
        as (Hr & Hw & Hd & Hqy & Hce).
      pose proof (process_triple_inv (env u s) u s li st Hinv) as Hinv1.
      set (r1 := process_triple (env u s) u s li st) in *.
      assert (Hdd : deref_dict (r_store r1) l = deref_dict st l)
        by (unfold deref_dict; rewrite Hd; reflexivity).
      destruct (IH (r_store r1) Hinv1 ltac:(rewrite Hw; exact Hu)
                   ltac:(rewrite Hdd; exact Hlen)) as (Hr2 & Hw2 & Hd2 & Hqy2 & Hce2).
      unfold and_then. rewrite Hr. simpl.
      split; [exact Hr2|]. split; [congruence|]. split; [congruence|]. split.
      * intros i s' li' Hi Hl'. apply elem_of_app.
        destruct (decide (i = len0 - S n)) as [->|Hne].
        -- left. rewrite Hl in Hl'. injection Hl' as <- <-. exact Hqy.
        -- right. apply (Hqy2 i s' li'); [lia|]. rewrite Hdd. exact Hl'.
      * intros e He. apply elem_of_app in He as [He|He]; [exact (Hce e He)|exact (Hce2 e He)].
    + simpl. repeat split; [|intros e He; inversion He].
      intros i s li Hi Hl'. apply lookup_ge_None in Hl.
      apply lookup_lt_Some in Hl'. lia.
Qed.

Lemma triples_frame st st' snap :
  user_dicts st' = user_dicts st -> triples st' snap = triples st snap.
Proof. intros H. unfold triples, deref_dict. rewrite H. reflexivity. Qed.

Lemma outer_loop_quiet env :
  (forall u s, quiet (env u s)) ->
  forall snap st,
    store_inv st -> (forall u l, (u, l) ∈ snap -> dict_get (watches st) u = Some l) ->
    let r := outer_loop env snap st in
    r_raised r = None /\ watches (r_store r) = watches st /\
    user_dicts (r_store r) = user_dicts st /\
    (forall u s, (u, s) ∈ triples st snap -> Query u s ∈ r_events r) /\
    (forall e, CycleError e ∉ r_events r).
Proof.
  intros Hq. induction snap as [|[u l] snap IH]; intros st Hinv Hsnap; simpl.
  - do 3 (split; [reflexivity|]).
    split; [intros u s H; inversion H|intros e H; inversion H].
  - assert (Hu : dict_get (watches st) u = Some l) by (apply Hsnap; left).
    destruct (inner_loop_quiet env u l (length (deref_dict st l)) (Hq u)
                (length (deref_dict st l)) st Hinv Hu eq_refl)
      as (Hr & Hw & Hd & Hqy & Hce).
    pose proof (inner_loop_inv env u l (length (deref_dict st l))
                  (length (deref_dict st l)) st Hinv) as Hinv1.
    set (r1 := inner_loop env u l _ _ st) in *.
    destruct (IH (r_store r1) Hinv1) as (Hr2 & Hw2 & Hd2 & Hqy2 & Hce2).
    { intros u' l' Hin. rewrite Hw. apply Hsnap. right. exact Hin. }
    unfold and_then. rewrite Hr. simpl.
    split; [exact Hr2|]. split; [congruence|]. split; [congruence|]. split.
    + intros u' s' Hin. apply elem_of_app. apply elem_of_app in Hin as [Hin|Hin].
      * left. apply list_elem_of_fmap in Hin as ([s0 li0] & [= -> ->] & Hin).
        apply list_elem_of_lookup in Hin as [i Hi].
        apply (Hqy i s0 li0); [lia|exact Hi].
      * right. apply Hqy2. rewrite (triples_frame st (r_store r1) snap Hd). exact Hin.
    + intros e He. apply elem_of_app in He as [He|He]; [exact (Hce e He)|exact (Hce2 e He)].
Qed.

(** ** Entries after the operations of the store *)

Lemma entry_put_watch st u s price :
  is_Some (dict_get (watches st) u) ->
  entry (put_watch st u s price) u s = Some (new_info price).
Proof.
  intros [l Hl]. unfold put_watch, entry. rewrite Hl. simpl. rewrite Hl.
  unfold deref_dict at 1. simpl. rewrite lookup_insert_eq. simpl.
  rewrite dict_get_set_eq. unfold deref_info. simpl.
  rewrite lookup_insert_eq. reflexivity.
Qed.

Lemma entry_rebase st u s price i :
  entry st u s = Some i ->
  r_raised (rebase u s price st) = None /\
  entry (r_store (rebase u s price st)) u s = Some (rebased price i).
Proof.
  unfold entry. rewrite rebase_run.
  destruct (dict_get (watches st) u) as [l|] eqn:Hu; [|discriminate].
  destruct (dict_get (deref_dict st l) s) as [li|] eqn:Hs; [|discriminate].
  intros [= <-]. split; [reflexivity|].
  simpl. rewrite Hu.
  change (deref_dict (set_info st li (rebased price (deref_info st li))) l)
    with (deref_dict st l).
  rewrite Hs, deref_info_set_info. reflexivity.
Qed.

Lemma nodup_snd_key {V} (d : list (pystr * V)) k1 k2 v :
  NoDup d.*2 -> (k1, v) ∈ d -> (k2, v) ∈ d -> k1 = k2.
Proof.
  induction d as [|[k' v'] d IH]; simpl; intros Hnd H1 H2; [inversion H1|].
  apply NoDup_cons in Hnd as [Hv Hnd].
  assert (Hsnd : forall k, (k, v') ∈ d -> False).
  { intros k Hk. apply Hv. apply list_elem_of_fmap. exists (k, v'). auto. }
  apply elem_of_cons in H1 as [H1|H1]; apply elem_of_cons in H2 as [H2|H2];
    simplify_eq; try reflexivity; try (exfalso; eauto; fail).
  exact (IH Hnd H1 H2).
Qed.

(** Deleting from one user's dictionary leaves everything else as it is. *)
Lemma delete_frame st user_id l stock_id :
  store_inv st -> dict_get (watches st) user_id = Some l ->
  let st' := set_dict st l (dict_del (deref_dict st l) stock_id) in
  (forall u, u <> user_id -> watchlist st' u = watchlist st u) /\
  (forall s, s <> stock_id -> entry st' user_id s = entry st user_id s).
Proof.
  intros Hinv Hl st'. split.
  - intros u Hne. unfold watchlist. simpl.
    destruct (dict_get (watches st) u) as [l'|] eqn:Hl'; [|reflexivity].
    assert (l' <> l).
    { intros ->. apply Hne.
      exact (nodup_snd_key _ _ _ _ (inv_users st Hinv)
               (dict_get_elem _ _ _ Hl') (dict_get_elem _ _ _ Hl)). }
    unfold deref_dict at 1. simpl. rewrite lookup_insert_ne by congruence.
    reflexivity.
  - intros s Hne. unfold entry. simpl. rewrite Hl.
    unfold deref_dict at 1. simpl. rewrite lookup_insert_eq. simpl.
    rewrite dict_get_del_ne by congruence. reflexivity.
Qed.

(** ** The passes of the loop *)

Lemma sleeps_app evs1 evs2 : sleeps (evs1 ++ evs2) = sleeps evs1 + sleeps evs2.
Proof.
  induction evs1 as [|e evs1 IH]; simpl; [reflexivity|].
  destruct e; simpl; rewrite IH; reflexivity.
Qed.

Lemma and_then_sleeps r k :
  sleeps (r_events r) = 0 -> (forall st, sleeps (r_events (k st)) = 0) ->
  sleeps (r_events (r +> k)) = 0.
Proof.
  intros Hr Hk. unfold and_then. destruct (r_raised r); [exact Hr|].
  simpl. rewrite sleeps_app, Hr, Hk. reflexivity.
Qed.

Lemma rebase_events u s price st : r_events (rebase u s price st) = [].
Proof.
  rewrite rebase_run. destruct (dict_get (watches st) u) as [l|]; [|reflexivity].
  destruct (dict_get (deref_dict st l) s); reflexivity.
Qed.

Lemma process_triple_sleeps env u s li st :
  sleeps (r_events (process_triple env u s li st)) = 0.
Proof.
  unfold process_triple.
  destruct (get_tw_stock_price (quote env)) as [price|]; [|reflexivity].
  destruct (deref_info _ li !! "base_price") as [base|].
  - destruct (crossing _ _ _) as [e|[d|]]; try reflexivity.
    apply and_then_sleeps; [reflexivity|]. intros st'. rewrite rebase_events. reflexivity.
  - apply and_then_sleeps; [reflexivity|]. intros st'. rewrite rebase_events. reflexivity.
Qed.

Lemma inner_loop_sleeps env u stocks len0 remaining : forall st,
  sleeps (r_events (inner_loop env u stocks len0 remaining st)) = 0.
Proof.
  induction remaining as [|n IH]; intros st; simpl.
  - destruct (negb _); reflexivity.
  - destruct (negb _); [reflexivity|].
    destruct (deref_dict st stocks !! (len0 - S n)) as [[s li]|]; [|reflexivity].
    apply and_then_sleeps; [apply process_triple_sleeps|exact IH].
Qed.

Lemma outer_loop_sleeps env snap : forall st,
  sleeps (r_events (outer_loop env snap st)) = 0.
Proof.
  induction snap as [|[u l] snap IH]; intros st; simpl; [reflexivity|].
  apply and_then_sleeps; [apply inner_loop_sleeps|exact IH].
Qed.

(** Whatever is raised inside a pass, the pass ends in its sleep. *)
Lemma alert_cycle_sleeps env st : sleeps (snd (alert_cycle env st)) = 1.
Proof.
  unfold alert_cycle. pose proof (outer_loop_sleeps env (snapshot st) st) as H.
  destruct (r_raised _); simpl; rewrite sleeps_app, H; reflexivity.
Qed.

Lemma alert_loop_sleeps schedule : forall st,
  sleeps (snd (alert_loop schedule st)) = length schedule.
Proof.
  induction schedule as [|[env asleep] schedule IH]; intros st; simpl; [reflexivity|].
  pose proof (alert_cycle_sleeps env st) as H1.
  destruct (alert_cycle env st) as [st1 evs1]. simpl in H1.
  specialize (IH (handle_all st1 asleep)).
  destruct (alert_loop schedule (handle_all st1 asleep)) as [st2 evs2]. simpl in *.
  rewrite sleeps_app, H1, IH. reflexivity.
Qed.

Lemma alert_cycle_quiet env st :
  store_inv st -> (forall u s, quiet (env u s)) ->
  (forall e, CycleError e ∉ snd (alert_cycle env st)) /\
  (forall u s, (u, s) ∈ triples st (snapshot st) -> Query u s ∈ snd (alert_cycle env st)).
Proof.
  intros Hinv Hq. unfold alert_cycle.
  destruct (outer_loop_quiet env Hq (snapshot st) st Hinv) as (Hr & _ & _ & Hqy & Hce).
  { intros u l Hin. apply dict_get_nodup; [exact (inv_keys st Hinv)|exact Hin]. }
  rewrite Hr. simpl. split.
  - intros e He. apply elem_of_app in He as [He|He]; [exact (Hce e He)|absent_event He].
  - intros u s Hin. apply elem_of_app. left. exact (Hqy u s Hin).
Qed.

(** ** The order of floats *)

Lemma SFcompare_swap x y : SFcompare y x = option_map CompOpp (SFcompare x y).
Proof.
  destruct x as [sx|sx| |sx mx ex], y as [sy|sy| |sy my ey]; simpl;
    try reflexivity; try (destruct sx; reflexivity); try (destruct sy; reflexivity);
    try (destruct sx, sy; reflexivity).
  pose proof (Pos.compare_cont_antisym mx my Eq) as Hm. simpl in Hm.
  destruct sx, sy; simpl; try reflexivity;
    rewrite (Z.compare_antisym ex ey); destruct (ex ?= ey)%Z; simpl; try reflexivity;
    rewrite <- Hm; try rewrite CompOpp_involutive; reflexivity.
Qed.

Local Open Scope Z_scope.

Lemma SFcompare_key x y :
  SFcompare x y =
    match order_key x, order_key y with
    | Some a, Some b => Some (lex3 a b)
    | _, _ => None
    end.
Proof.
  destruct x as [sx|sx| |sx mx ex], y as [sy|sy| |sy my ey]; simpl;
    try reflexivity; try (destruct sx; reflexivity); try (destruct sy; reflexivity);
    try (destruct sx, sy; reflexivity).
  destruct sx, sy; simpl; try reflexivity.
  rewrite Z.compare_opp, (Z.compare_antisym ex ey), Pos.compare_cont_spec.
  destruct (ex ?= ey); simpl; try reflexivity.
  destruct (mx ?= my)%positive; reflexivity.
Qed.

Lemma lex3_lt a1 a2 a3 b1 b2 b3 :
  lex3 (a1, a2, a3) (b1, b2, b3) = Lt <->
  a1 < b1 \/ (a1 = b1 /\ (a2 < b2 \/ (a2 = b2 /\ a3 < b3))).
Proof.
  unfold lex3.
  destruct (Z.compare_spec a1 b1), (Z.compare_spec a2 b2), (Z.compare_spec a3 b3);
    split; intros Hc; try discriminate; try reflexivity; lia.
Qed.

Lemma lex3_le a1 a2 a3 b1 b2 b3 :
  lex3 (a1, a2, a3) (b1, b2, b3) <> Gt <->
  a1 < b1 \/ (a1 = b1 /\ (a2 < b2 \/ (a2 = b2 /\ a3 <= b3))).
Proof.
  unfold lex3.
  destruct (Z.compare_spec a1 b1), (Z.compare_spec a2 b2), (Z.compare_spec a3 b3);
    split; intros Hc; try congruence; try lia.
Qed.

Lemma fle_flt_trans x y z : fle x y = true -> flt y z = true -> flt x z = true.
Proof.
  unfold fle, flt, SFleb, SFltb. rewrite !SFcompare_key.
  destruct (order_key x) as [[[a1 a2] a3]|], (order_key y) as [[[b1 b2] b3]|],
           (order_key z) as [[[c1 c2] c3]|]; try discriminate.
  intros Hxy Hyz.
  assert (H1 : lex3 (a1, a2, a3) (b1, b2, b3) <> Gt)
    by (destruct (lex3 (a1, a2, a3) (b1, b2, b3)); discriminate).
  assert (H2 : lex3 (b1, b2, b3) (c1, c2, c3) = Lt)
    by (destruct (lex3 (b1, b2, b3) (c1, c2, c3)); try discriminate; reflexivity).
  apply lex3_le in H1. apply lex3_lt in H2.
  assert (H3 : lex3 (a1, a2, a3) (c1, c2, c3) = Lt) by (apply lex3_lt; lia).
  rewrite H3. reflexivity.
Qed.

Local Close Scope Z_scope.

Lemma flt_not_fle x y : flt x y = true -> fle y x = false.
Proof.
  unfold flt, fle, SFltb, SFleb. rewrite (SFcompare_swap x y).
  destruct (SFcompare x y) as [[ | | ]|]; simpl; congruence.
Qed.

Lemma feq_fle x y : feq x y = true -> fle x y = true /\ fle y x = true.
Proof.
  unfold feq, fle, SFeqb, SFleb. rewrite (SFcompare_swap x y).
  destruct (SFcompare x y) as [[ | | ]|]; simpl; try discriminate. auto.
Qed.

(** ** The properties of the specification *)

(** C4. Immediately after an add-watch and immediately after the re-base
    of a crossing, the stored entry holds the price just set as its base
    price, [base * 1.05] as its upper threshold and [base * 0.95] as its
    lower threshold, for every price (in particular every positive one). *)
Theorem thresholds_after_rebasing st user_id :
  (forall raw resp price,
     isdigit (strip raw) = true -> get_tw_stock_price resp = Some price ->
     exists i,
       entry (fst (handle_message st user_id raw resp)) user_id (strip raw) = Some i /\
       i !! "base_price" = Some price /\
       i !! "up_threshold" = Some (fmul price c1_05) /\
       i !! "down_threshold" = Some (fmul price c0_95)) /\
  (forall stock_id price,
     is_Some (entry st user_id stock_id) ->
     exists i,
       entry (r_store (rebase user_id stock_id price st)) user_id stock_id = Some i /\
       i !! "base_price" = Some price /\
       i !! "up_threshold" = Some (fmul price c1_05) /\
       i !! "down_threshold" = Some (fmul price c0_95)).
Proof.
  split.
  - intros raw resp price Hd Hp. exists (new_info price).
    rewrite (handle_message_digits st user_id raw resp Hd), Hp. simpl.
    split; [|exact (rebased_fields price ∅)].
    apply entry_put_watch.
    destruct (dict_get (watches st) user_id) as [l|] eqn:Hu; [rewrite Hu; eauto|].
    simpl. rewrite dict_get_set_eq. eauto.
  - intros stock_id price [i Hi]. exists (rebased price i).
    split; [exact (proj2 (entry_rebase st user_id stock_id price i Hi))|].
    apply rebased_fields.
Qed.

(** C5. The crossing test is the decision list of the source with its
    closed comparisons: [price >= up_threshold] gives "up", otherwise
    [price <= down_threshold] gives "down", otherwise nothing.  A price equal
    to a threshold passes that threshold's test, a price strictly between
    the thresholds passes neither, and with the lower threshold below the
    upper one every [price <= down_threshold] gives "down". *)
Theorem crossing_closed_boundaries price up down :
  crossing price (Some up) (Some down) =
    inr (if fge price up then Some Up
         else if fle price down then Some Down else None) /\
  (feq price up = true -> crossing price (Some up) (Some down) = inr (Some Up)) /\
  (feq price down = true -> crossing price (Some up) (Some down) <> inr None) /\
  (flt down up = true -> fle price down = true ->
   crossing price (Some up) (Some down) = inr (Some Down)) /\
  (flt down price = true -> flt price up = true ->
   crossing price (Some up) (Some down) = inr None).
Proof.
  assert (Hc : crossing price (Some up) (Some down) =
               inr (if fge price up then Some Up
                    else if fle price down then Some Down else None)).
  { unfold crossing. destruct (fge price up), (fle price down); reflexivity. }
  split; [exact Hc|]. rewrite Hc. repeat split.
  - intros He. apply feq_fle in He as [_ He].
    change (fge price up) with (fle up price). rewrite He. reflexivity.
  - intros He. apply feq_fle in He as [He _]. rewrite He.
    destruct (fge price up); discriminate.
  - intros Hord Hd. change (fge price up) with (fle up price).
    rewrite (flt_not_fle _ _ (fle_flt_trans _ _ _ Hd Hord)), Hd. reflexivity.
  - intros Hd Hu. change (fge price up) with (fle up price).
    rewrite (flt_not_fle _ _ Hu), (flt_not_fle _ _ Hd). reflexivity.
Qed.

(** C6. Once a crossing is detected the re-base happens whether the push
    was delivered or raised ([ok] is either): the pass raises nothing, the
    one push it attempted names the old base, and the entry then holds the
    price that crossed as its base price with both thresholds recomputed
    from it. *)
Theorem rebase_regardless_of_delivery st user_id stock_id l li q ok price d :
  reachable st ->
  dict_get (watches st) user_id = Some l -> (stock_id, li) ∈ deref_dict st l ->
  get_tw_stock_price q = Some price ->
  crossing price (deref_info st li !! "up_threshold")
           (deref_info st li !! "down_threshold") = inr (Some d) ->
  let r := process_triple (TripleEnv q [] ok []) user_id stock_id li st in
  r_raised r = None /\
  (exists old, deref_info st li !! "base_price" = Some old /\
     r_events r = [Query user_id stock_id; Push user_id stock_id price old d ok]) /\
  (exists i, entry (r_store r) user_id stock_id = Some i /\
     i !! "base_price" = Some price /\
     i !! "up_threshold" = Some (fmul price c1_05) /\
     i !! "down_threshold" = Some (fmul price c0_95)).
Proof.
  intros Hreach Hu Hin Hq Hc r. pose proof (reachable_inv st Hreach) as Hinv.
  destruct (process_triple_quiet (TripleEnv q [] ok []) user_id stock_id li st l
              (conj eq_refl eq_refl) Hinv Hu Hin) as (b & li' & Hb & Hli' & Hrun).
  destruct (member_derived st l stock_id li Hinv Hin) as (b' & Hb' & Hup & Hdown).
  assert (b' = b) by congruence. subst b'.
  subst r. rewrite Hrun. simpl quote. rewrite Hq. rewrite Hup, Hdown in Hc.
  rewrite Hc. simpl. split; [reflexivity|]. split; [eauto|].
  exists (rebased price (deref_info st li')). split; [|apply rebased_fields].
  unfold entry. simpl. rewrite Hu.
  change (deref_dict (set_info st li' (rebased price (deref_info st li'))) l)
    with (deref_dict st l).
  rewrite Hli', deref_info_set_info. reflexivity.
Qed.


(** C8, as amended.  In every store the program reaches, each entry's
    thresholds are the ones derived from its base price, [base * 1.05] and
    [base * 0.95] in binary64, and whenever the base price is a positive
    normal double the lower threshold is below it and the upper threshold
    above it. *)
Theorem thresholds_follow_base st user_id stock_id i :
  reachable st -> entry st user_id stock_id = Some i ->
  exists b,
    i !! "base_price" = Some b /\
    i !! "up_threshold" = Some (fmul b c1_05) /\
    i !! "down_threshold" = Some (fmul b c0_95) /\
    (positive_normal b = true ->
     flt (fmul b c0_95) b = true /\ flt b (fmul b c1_05) = true).
Proof.
  intros Hreach He. pose proof (reachable_inv st Hreach) as Hinv.
  unfold entry in He.
  destruct (dict_get (watches st) user_id) as [l|]; [|discriminate].
  destruct (dict_get (deref_dict st l) stock_id) as [li|] eqn:Hs; [|discriminate].
  injection He as <-.
  destruct (member_derived st l stock_id li Hinv (dict_get_elem _ _ _ Hs))
    as (b & Hb & Hup & Hdown).
  exists b. repeat split; try assumption.
  - apply fmul_c0_95_lt. assumption.
  - apply fmul_c1_05_gt. assumption.
Qed.

(** C9. A delete command of a user can remove only that user's entry for
    the instrument it names, the second token of the text: the watchlists
    of all other users and the user's entries for all other instruments are
    as they were, whether or not the named entry existed. *)
Theorem delete_only_that_entry st user_id raw resp :
  reachable st ->
  let lower_text := strip (replace_fullwidth (py_lower (strip raw))) in
  startswith (lit "del ") lower_text || startswith word_shanchu_sp lower_text = true ->
  let st' := fst (handle_message st user_id raw resp) in
  exists stock_id,
    split lower_text !! 1 = Some stock_id /\
    (forall u, u <> user_id -> watchlist st' u = watchlist st u) /\
    (forall s, s <> stock_id -> entry st' user_id s = entry st user_id s).
Proof.
  intros Hreach lower_text Hp st'. pose proof (reachable_inv st Hreach) as Hinv.
  destruct (del_command_tokens lower_text Hp (strip_last _)) as (a & stock_id & rest & Hsp).
  exists stock_id. split; [rewrite Hsp; reflexivity|].
  subst st'. unfold handle_message. fold lower_text.
  case_decide; [auto|]. case_decide.
  { destruct (match dict_get (watches st) user_id with
              | Some l => deref_dict st l | None => [] end); auto. }
  rewrite Hp, Hsp.
  destruct (dict_get (watches st) user_id) as [l|] eqn:Hu; [|auto].
  destruct (dict_get (deref_dict st l) stock_id); [|auto].
  exact (delete_frame st user_id l stock_id Hinv Hu).
Qed.

(** C10. The usage reply of the delete branch is dead code: once the
    text, trimmed, lower-cased and with its full-width spaces replaced,
    starts with the delete word and a space, it splits into at least two
    tokens, so [handle_message] never answers with the usage reply. *)
Theorem del_usage_unreachable st user_id raw resp :
  (let lower_text := strip (replace_fullwidth (py_lower (strip raw))) in
   startswith (lit "del ") lower_text || startswith word_shanchu_sp lower_text = true ->
   2 <= length (split lower_text)) /\
  snd (handle_message st user_id raw resp) <> ReplyDelUsage.
Proof.
  split.
  - intros lower_text Hp.
    destruct (del_command_tokens lower_text Hp (strip_last _)) as (a & b & rest & ->).
    simpl. lia.
  - unfold handle_message.
    case_decide; [discriminate|]. case_decide.
    { destruct (match dict_get (watches st) user_id with
                | Some l => deref_dict st l | None => [] end); discriminate. }
    destruct (startswith _ _ || startswith _ _) eqn:Hp.
    + destruct (del_command_tokens _ Hp (strip_last _)) as (a & b & rest & ->).
      destruct (dict_get (watches st) user_id) as [l|]; [|discriminate].
      destruct (dict_get (deref_dict st l) b); discriminate.
    + destruct (isdigit _); [|discriminate].
      destruct (get_tw_stock_price resp); discriminate.
Qed.

(** C3, as amended.  No failure ends the loop: every pass of a schedule
    reaches its sleep.  And in a pass that the command path does not
    interleave with, whatever the exchange answers and whether or not the
    pushes are delivered, nothing is raised and every triple of the
    snapshot is evaluated. *)
Theorem failures_do_not_stop_the_loop :
  (forall schedule st, sleeps (snd (alert_loop schedule st)) = length schedule) /\
  (forall env st,
     reachable st -> (forall u s, quiet (env u s)) ->
     (forall e, CycleError e ∉ snd (alert_cycle env st)) /\
     (forall u s, (u, s) ∈ triples st (snapshot st) ->
                  Query u s ∈ snd (alert_cycle env st))).
Proof.
  split.
  - intros schedule st. apply alert_loop_sleeps.
  - intros env st Hreach Hq. apply alert_cycle_quiet; [|exact Hq].
    apply reachable_inv, Hreach.
Qed.

(** * More of the program *)

(** ** More facts about dictionaries *)

Section DictMaps.
Context {V W : Type} (f : V -> W).
Implicit Types (d : list (pystr * V)) (k : pystr) (v : V).

Lemma dict_get_absent d k : dict_get d k = None -> k ∉ d.*1.
Proof.
  intros Hg Hin. apply list_elem_of_fmap in Hin as ([k' v'] & -> & Hin).
  destruct (dict_get_key _ _ _ Hin) as [x Hx]. simpl in *. congruence.
Qed.

Lemma dict_set_keys_present d k v :
  is_Some (dict_get d k) -> (dict_set d k v).*1 = d.*1.
Proof.
  induction d as [|[k' v'] d IH]; simpl; intros Hs; [destruct Hs; discriminate|].
  case_decide as Hk; simpl; [congruence|]. f_equal. apply IH, Hs.
Qed.

Lemma dict_set_nodup d k v : NoDup d.*1 -> NoDup (dict_set d k v).*1.
Proof.
  intros Hnd. destruct (dict_get d k) as [x|] eqn:Hg.
  - rewrite dict_set_keys_present by eauto. exact Hnd.
  - rewrite dict_set_new by exact Hg. rewrite fmap_app. apply NoDup_app.
    split; [exact Hnd|]. split; [|apply NoDup_singleton].
    intros x Hx Hx'. apply list_elem_of_singleton in Hx'. simpl in Hx'. subst x.
    exact (dict_get_absent d k Hg Hx).
Qed.

Lemma dict_del_keys d k x : x ∈ (dict_del d k).*1 -> x ∈ d.*1.
Proof.
  intros Hx. apply list_elem_of_fmap in Hx as (p & -> & Hp).
  apply list_elem_of_fmap. exists p. split; [reflexivity|].
  exact (elem_of_dict_del _ _ _ Hp).
Qed.

Lemma dict_del_nodup d k : NoDup d.*1 -> NoDup (dict_del d k).*1.
Proof.
  induction d as [|[k' v'] d IH]; simpl; intros Hnd; [exact Hnd|].
  apply NoDup_cons in Hnd as [Hk' Hnd].
  case_decide as Hk; [exact Hnd|]. simpl. apply NoDup_cons. split; [|auto].
  intros Hin. apply Hk'. exact (dict_del_keys _ _ _ Hin).
Qed.

(** A deleted key is gone, when the dictionary held it once. *)
Lemma dict_get_del_eq d k : NoDup d.*1 -> dict_get (dict_del d k) k = None.
Proof.
  induction d as [|[k' v'] d IH]; simpl; intros Hnd; [reflexivity|].
  apply NoDup_cons in Hnd as [Hk' Hnd].
  case_decide as Hk.
  - subst k'. destruct (dict_get d k) as [x|] eqn:Hg; [|reflexivity].
    exfalso. apply Hk'. apply list_elem_of_fmap. exists (k, x).
    split; [reflexivity|]. exact (dict_get_elem _ _ _ Hg).
  - simpl. case_decide; [contradiction|auto].
Qed.

Lemma dict_set_twice d k v v' : dict_set (dict_set d k v) k v' = dict_set d k v'.
Proof.
  induction d as [|[k0 v0] d IH]; simpl.
  - case_decide; [reflexivity|contradiction].
  - case_decide as Hk; simpl.
    + case_decide; [reflexivity|contradiction].
    + case_decide; [contradiction|]. rewrite IH. reflexivity.
Qed.

Lemma dict_del_set_new d k v : dict_get d k = None -> dict_del (dict_set d k v) k = d.
Proof.
  induction d as [|[k' v'] d IH]; simpl; intros Hg.
  - case_decide; [reflexivity|contradiction].
  - case_decide as Hk; [discriminate|]. simpl. case_decide; [contradiction|].
    rewrite IH by exact Hg. reflexivity.
Qed.

Lemma dict_del_absent d k : dict_get d k = None -> dict_del d k = d.
Proof.
  induction d as [|[k' v'] d IH]; simpl; intros Hg; [reflexivity|].
  case_decide as Hk; [discriminate|]. rewrite IH by exact Hg. reflexivity.
Qed.

(** Mapping the values commutes with the operations. *)
Lemma dict_get_map d k :
  dict_get (map (fun '(s, x) => (s, f x)) d) k = f <$> dict_get d k.
Proof.
  induction d as [|[k' v'] d IH]; simpl; [reflexivity|].
  case_decide; [reflexivity|exact IH].
Qed.

Lemma dict_set_map d k v :
  map (fun '(s, x) => (s, f x)) (dict_set d k v)
  = dict_set (map (fun '(s, x) => (s, f x)) d) k (f v).
Proof.
  induction d as [|[k' v'] d IH]; simpl; [reflexivity|].
  case_decide; simpl; [reflexivity|]. rewrite IH. reflexivity.
Qed.

Lemma dict_del_map d k :
  map (fun '(s, x) => (s, f x)) (dict_del d k)
  = dict_del (map (fun '(s, x) => (s, f x)) d) k.
Proof.
  induction d as [|[k' v'] d IH]; simpl; [reflexivity|].
  case_decide; simpl; [reflexivity|]. rewrite IH. reflexivity.
Qed.

End DictMaps.

(** ** What every step of the program preserves *)

Lemma rebase_store u s price st :
  r_store (rebase u s price st) = st \/
  exists li, r_store (rebase u s price st)
             = set_info st li (rebased price (deref_info st li)).
Proof.
  rewrite rebase_run. destruct (dict_get (watches st) u) as [l|]; [|auto].
  destruct (dict_get (deref_dict st l) s) as [li|]; [|auto].
  right. exists li. reflexivity.
Qed.

(** A property of the store that the command path keeps, and that
    rewriting an info object keeps, holds along the whole run. *)
Section Preservation.
Variable P : store -> Prop.
Hypothesis P_message :
  forall st u raw resp, P st -> P (fst (handle_message st u raw resp)).
Hypothesis P_set_info : forall st li i, P st -> P (set_info st li i).

Lemma handle_all_preserves msgs : forall st, P st -> P (handle_all st msgs).
Proof.
  induction msgs as [|m msgs IH]; intros st HP; simpl; [exact HP|].
  apply IH, P_message, HP.
Qed.

Lemma rebase_preserves u s price st : P st -> P (r_store (rebase u s price st)).
Proof.
  intros HP. destruct (rebase_store u s price st) as [->|[li ->]];
    [exact HP|apply P_set_info, HP].
Qed.

Lemma process_triple_preserves env u s li st :
  P st -> P (r_store (process_triple env u s li st)).
Proof.
  intros HP. unfold process_triple.
  pose proof (handle_all_preserves (during_fetch env) st HP) as H1.
  destruct (get_tw_stock_price (quote env)) as [price|]; [|exact H1].
  destruct (deref_info _ li !! "base_price") as [base|].
  - destruct (crossing _ _ _) as [e|[d|]]; try exact H1.
    apply and_then_inv; [apply handle_all_preserves, H1|].
    intros st' Hst'. apply rebase_preserves, Hst'.
  - apply and_then_inv; [exact H1|]. intros st' Hst'. apply rebase_preserves, Hst'.
Qed.

Lemma inner_loop_preserves env u stocks len0 remaining : forall st,
  P st -> P (r_store (inner_loop env u stocks len0 remaining st)).
Proof.
  induction remaining as [|n IH]; intros st HP; simpl.
  - destruct (negb _); exact HP.
  - destruct (negb _); [exact HP|].
    destruct (deref_dict st stocks !! (len0 - S n)) as [[s li]|]; [|exact HP].
    apply and_then_inv; [apply process_triple_preserves, HP|exact IH].
Qed.

Lemma outer_loop_preserves env snap : forall st,
  P st -> P (r_store (outer_loop env snap st)).
Proof.
  induction snap as [|[u l] snap IH]; intros st HP; simpl; [exact HP|].
  apply and_then_inv; [apply inner_loop_preserves, HP|exact IH].
Qed.

Lemma alert_cycle_preserves env st : P st -> P (fst (alert_cycle env st)).
Proof.
  intros HP. unfold alert_cycle.
  pose proof (outer_loop_preserves env (snapshot st) st HP) as H.
  destruct (r_raised _); exact H.
Qed.

Lemma reachable_preserves : P empty_store -> forall st, reachable st -> P st.
Proof.
  intros H0 st. induction 1 as [|st u raw resp _ IH|st env _ IH].
  - exact H0.
  - apply P_message, IH.
  - apply alert_cycle_preserves, IH.
Qed.

End Preservation.

Lemma heap_inv_message st u raw resp :
  heap_inv st -> heap_inv (fst (handle_message st u raw resp)).
Proof.
  intros Hinv. unfold handle_message.
  case_decide; [exact Hinv|].
  case_decide.
  { destruct (match dict_get (watches st) u with
              | Some l => deref_dict st l | None => [] end); exact Hinv. }
  destruct (startswith _ _ || startswith _ _).
  { destruct (split _) as [|tok [|stock_id toks]]; try exact Hinv.
    destruct (dict_get (watches st) u) as [lu|]; [|exact Hinv].
    destruct (dict_get (deref_dict st lu) stock_id); [|exact Hinv].
    destruct Hinv as [Hr Hk]. split; simpl.
    - intros l0 d0 s0 li0 Hl Hin. apply lookup_insert_Some in Hl as [[_ <-]|[_ Hl]].
      + apply elem_of_dict_del, deref_dict_elem in Hin as (d1 & Hl1 & Hin1).
        exact (Hr _ _ _ _ Hl1 Hin1).
      + exact (Hr _ _ _ _ Hl Hin).
    - intros l0 d0 Hl. apply lookup_insert_Some in Hl as [[_ <-]|[_ Hl]].
      + apply dict_del_nodup. unfold deref_dict.
        destruct (user_dicts st !! lu) as [d1|] eqn:Hl1; simpl; [eauto|constructor].
      + eauto. }
  destruct (isdigit _); [|exact Hinv].
  destruct (get_tw_stock_price resp) as [price|]; [|exact Hinv].
  simpl.
  assert (H1 : heap_inv (match dict_get (watches st) u with
                         | Some _ => st | None => add_user st u end)).
  { destruct (dict_get (watches st) u); [exact Hinv|].
    destruct Hinv as [Hr Hk]. split; simpl.
    - intros l0 d0 s0 li0 Hl Hin. apply lookup_insert_Some in Hl as [[_ <-]|[_ Hl]].
      + inversion Hin.
      + specialize (Hr _ _ _ _ Hl Hin). lia.
    - intros l0 d0 Hl. apply lookup_insert_Some in Hl as [[_ <-]|[_ Hl]];
        [constructor|eauto]. }
  set (st1 := match dict_get (watches st) u with
              | Some _ => st | None => add_user st u end) in *.
  clearbody st1. unfold put_watch.
  destruct (dict_get (watches st1) u) as [l|]; [|exact H1].
  destruct H1 as [Hr Hk]. split; simpl.
  - intros l0 d0 s0 li0 Hl Hin. apply lookup_insert_Some in Hl as [[_ <-]|[_ Hl]].
    + apply elem_of_dict_set in Hin as [Hin|[= _ ->]]; [|lia].
      apply deref_dict_elem in Hin as (d1 & Hl1 & Hin1).
      specialize (Hr _ _ _ _ Hl1 Hin1). lia.
    + specialize (Hr _ _ _ _ Hl Hin). lia.
  - intros l0 d0 Hl. apply lookup_insert_Some in Hl as [[_ <-]|[_ Hl]]; [|eauto].
    apply dict_set_nodup. unfold deref_dict.
    destruct (user_dicts st1 !! l) as [d1|] eqn:Hl1; simpl; [eauto|constructor].
Qed.

Lemma heap_inv_set_info st li i : heap_inv st -> heap_inv (set_info st li i).
Proof. intros [Hr Hk]. split; simpl; assumption. Qed.

(** In every store the program reaches, the per-user dictionaries hold
    each key once and refer to objects that exist already. *)
Lemma reachable_heap_inv st : reachable st -> heap_inv st.
Proof.
  apply (reachable_preserves heap_inv heap_inv_message heap_inv_set_info).
  split; simpl; intros l d; rewrite lookup_empty; discriminate.
Qed.

(** ** Watchlists under the commands *)

Lemma entry_watchlist st u s :
  entry st u s = watchlist st u ≫= fun w => dict_get w s.
Proof.
  unfold entry, watchlist. destruct (dict_get (watches st) u) as [l|]; [|reflexivity].
  simpl. rewrite (dict_get_map (deref_info st) (deref_dict st l) s).
  destruct (dict_get (deref_dict st l) s); reflexivity.
Qed.

Lemma watchlist_put_watch st u s price l :
  store_inv st -> heap_inv st -> dict_get (watches st) u = Some l ->
  watchlist (put_watch st u s price) u
    = Some (dict_set (default [] (watchlist st u)) s (new_info price)) /\
  (forall u', u' <> u -> watchlist (put_watch st u s price) u' = watchlist st u').
Proof.
  intros Hinv Hh Hl. unfold put_watch. rewrite Hl.
  set (st' := {| watches := watches st;
                 user_dicts := <[l := dict_set (deref_dict st l) s (next_id st)]>
                                 (user_dicts st);
                 info_dicts := <[next_id st := new_info price]> (info_dicts st);
                 next_id := S (next_id st) |}).
  assert (Hold : forall l' s' li', (s', li') ∈ deref_dict st l' ->
                   deref_info st' li' = deref_info st li').
  { intros l' s' li' Hin. apply deref_dict_elem in Hin as (d & Hd & Hin).
    pose proof (inv_refs st Hh _ _ _ _ Hd Hin). unfold deref_info, st'. simpl.
    rewrite lookup_insert_ne by lia. reflexivity. }
  assert (Hd : deref_dict st' l = dict_set (deref_dict st l) s (next_id st))
    by (unfold deref_dict, st'; simpl; rewrite lookup_insert_eq; reflexivity).
  assert (Hn : deref_info st' (next_id st) = new_info price)
    by (unfold deref_info, st'; simpl; rewrite lookup_insert_eq; reflexivity).
  unfold watchlist. change (watches st') with (watches st). rewrite Hl. simpl. split.
  - f_equal. rewrite Hd, (dict_set_map (deref_info st')), Hn. f_equal.
    apply map_ext_in. intros [s' li'] Hin. f_equal.
    apply (Hold l s' li'). apply list_elem_of_In. exact Hin.
  - intros u' Hne. destruct (dict_get (watches st) u') as [l'|] eqn:Hl'; [|reflexivity].
    assert (l' <> l).
    { intros ->. apply Hne.
      exact (nodup_snd_key _ _ _ _ (inv_users st Hinv)
               (dict_get_elem _ _ _ Hl') (dict_get_elem _ _ _ Hl)). }
    assert (Hd' : deref_dict st' l' = deref_dict st l')
      by (unfold deref_dict, st'; simpl; rewrite lookup_insert_ne by congruence;
          reflexivity).
    f_equal. rewrite Hd'. apply map_ext_in. intros [s' li'] Hin. f_equal.
    apply (Hold l' s' li'). apply list_elem_of_In. exact Hin.
Qed.

Lemma watchlist_add_user st u :
  store_inv st -> dict_get (watches st) u = None ->
  watchlist (add_user st u) u = Some [] /\
  (forall u', u' <> u -> watchlist (add_user st u) u' = watchlist st u').
Proof.
  intros Hinv Hu. unfold add_user, watchlist. simpl. split.
  - rewrite dict_get_set_eq. unfold deref_dict. simpl.
    rewrite lookup_insert_eq. reflexivity.
  - intros u' Hne. rewrite dict_get_set_ne by congruence.
    destruct (dict_get (watches st) u') as [l'|] eqn:Hl'; [|reflexivity].
    pose proof (inv_fresh st Hinv _ _ (dict_get_elem _ _ _ Hl')).
    unfold deref_dict at 1. simpl. rewrite lookup_insert_ne by lia. reflexivity.
Qed.

(** Adding a watch sets the key in the user's watchlist and leaves the
    other users' watchlists as they are. *)
Lemma add_watchlist st u raw resp price :
  reachable st -> isdigit (strip raw) = true ->
  get_tw_stock_price resp = Some price ->
  watchlist (fst (handle_message st u raw resp)) u
    = Some (dict_set (default [] (watchlist st u)) (strip raw) (new_info price)) /\
  (forall u', u' <> u ->
     watchlist (fst (handle_message st u raw resp)) u' = watchlist st u').
Proof.
  intros Hreach Hd Hp.
  pose proof (reachable_inv st Hreach) as Hinv.
  pose proof (reachable_heap_inv st Hreach) as Hh.
  rewrite (handle_message_digits st u raw resp Hd), Hp. simpl.
  destruct (dict_get (watches st) u) as [l|] eqn:Hu.
  - exact (watchlist_put_watch st u (strip raw) price l Hinv Hh Hu).
  - destruct (watchlist_add_user st u Hinv Hu) as [Hw Hother].
    assert (Hinv1 : store_inv (add_user st u)) by (apply store_inv_add_user; assumption).
    assert (Hh1 : heap_inv (add_user st u)).
    { destruct Hh as [Hr Hk]. split; simpl.
      - intros l0 d0 s0 li0 Hl Hin. apply lookup_insert_Some in Hl as [[_ <-]|[_ Hl]].
        + inversion Hin.
        + specialize (Hr _ _ _ _ Hl Hin). lia.
      - intros l0 d0 Hl. apply lookup_insert_Some in Hl as [[_ <-]|[_ Hl]];
          [constructor|eauto]. }
    assert (Hu1 : dict_get (watches (add_user st u)) u = Some (next_id st))
      by (simpl; apply dict_get_set_eq).
    destruct (watchlist_put_watch (add_user st u) u (strip raw) price _ Hinv1 Hh1 Hu1)
      as [Hw2 Hother2].
    split.
    + rewrite Hw2, Hw. unfold watchlist. rewrite Hu. reflexivity.
    + intros u' Hne. rewrite Hother2, Hother by exact Hne. reflexivity.
Qed.

(** What [handle_message] does with a delete command. *)
Lemma handle_message_delete st u raw s resp :
  delete_command raw s ->
  handle_message st u raw resp =
    match dict_get (watches st) u with
    | Some l =>
        match dict_get (deref_dict st l) s with
        | Some _ => (set_dict st l (dict_del (deref_dict st l) s), ReplyStopped s)
        | None => (st, ReplyNotWatching s)
        end
    | None => (st, ReplyNotWatching s)
    end.
Proof.
  intros [Hp Hs]. unfold handle_message.
  case_decide as Hh.
  { exfalso. destruct Hh as [Hh|Hh]; rewrite Hh in Hp; vm_compute in Hp; discriminate. }
  case_decide as Hl.
  { exfalso. rewrite Hl in Hp. vm_compute in Hp. discriminate. }
  rewrite Hp. destruct (split _) as [|a [|b rest]]; try discriminate Hs.
  injection Hs as ->. reflexivity.
Qed.

Lemma deref_dict_set_dict st l d : deref_dict (set_dict st l d) l = d.
Proof. unfold deref_dict. simpl. rewrite lookup_insert_eq. reflexivity. Qed.

Lemma watchlist_keys_nodup st u w :
  heap_inv st -> watchlist st u = Some w -> NoDup w.*1.
Proof.
  intros Hh. unfold watchlist.
  destruct (dict_get (watches st) u) as [l|]; [|discriminate]. intros [= <-].
  assert (Hk : (map (fun '(s, li) => (s, deref_info st li)) (deref_dict st l)).*1
               = (deref_dict st l).*1).
  { induction (deref_dict st l) as [|[s li] d IH]; simpl; [reflexivity|].
    f_equal. exact IH. }
  rewrite Hk. unfold deref_dict.
  destruct (user_dicts st !! l) as [d|] eqn:Hd; simpl; [|constructor].
  exact (inv_stock_keys st Hh l d Hd).
Qed.

(** A delete command deletes the key from the user's watchlist and leaves
    the other users' watchlists as they are. *)
Lemma delete_watchlist st u raw s resp :
  reachable st -> delete_command raw s ->
  snd (handle_message st u raw resp)
    = match entry st u s with
      | Some _ => ReplyStopped s
      | None => ReplyNotWatching s
      end /\
  watchlist (fst (handle_message st u raw resp)) u
    = (fun w => dict_del w s) <$> watchlist st u /\
  (forall u', u' <> u ->
     watchlist (fst (handle_message st u raw resp)) u' = watchlist st u') /\
  (entry st u s = None -> fst (handle_message st u raw resp) = st).
Proof.
  intros Hreach Hc. pose proof (reachable_inv st Hreach) as Hinv.
  rewrite (handle_message_delete st u raw s resp Hc).
  unfold entry.
  destruct (dict_get (watches st) u) as [l|] eqn:Hu.
  - destruct (dict_get (deref_dict st l) s) as [li|] eqn:Hs; simpl.
    + split; [reflexivity|]. split; [|split; [|discriminate]].
      * unfold watchlist. simpl watches. rewrite Hu. simpl. f_equal.
        rewrite deref_dict_set_dict.
        exact (dict_del_map (deref_info st) (deref_dict st l) s).
      * exact (proj1 (delete_frame st u l s Hinv Hu)).
    + split; [reflexivity|]. split; [|auto].
      unfold watchlist. rewrite Hu. simpl. f_equal. symmetry. apply dict_del_absent.
      rewrite (dict_get_map (deref_info st) (deref_dict st l) s), Hs. reflexivity.
  - simpl. split; [reflexivity|]. split; [|auto].
    unfold watchlist. rewrite Hu. reflexivity.
Qed.

(** X1. Adding a watch sets the instrument's key in the user's watchlist to
    the entry made from the fetched price: a key that is there keeps its
    place and gets the new entry, a new key goes last, and the watchlists of
    the other users are as they were. *)
Theorem add_sets_watchlist st user_id raw resp price :
  reachable st -> isdigit (strip raw) = true ->
  get_tw_stock_price resp = Some price ->
  watchlist (fst (handle_message st user_id raw resp)) user_id
    = Some (dict_set (default [] (watchlist st user_id)) (strip raw) (new_info price)) /\
  (forall u, u <> user_id ->
     watchlist (fst (handle_message st user_id raw resp)) u = watchlist st u).
Proof. apply add_watchlist. Qed.

(** X2. Adding the same instrument twice at the same price shows every
    user the watchlists that adding it once shows. *)
Theorem add_twice_is_add_once st user_id raw resp price :
  reachable st -> isdigit (strip raw) = true ->
  get_tw_stock_price resp = Some price ->
  let st1 := fst (handle_message st user_id raw resp) in
  let st2 := fst (handle_message st1 user_id raw resp) in
  forall u, watchlist st2 u = watchlist st1 u.
Proof.
  intros Hreach Hd Hp st1 st2 u.
  destruct (add_watchlist st user_id raw resp price Hreach Hd Hp) as [H1 _].
  destruct (add_watchlist st1 user_id raw resp price
              (reach_message _ _ _ st user_id raw resp Hreach) Hd Hp) as [H2 Ho2].
  fold st1 in H1. fold st2 in H2, Ho2.
  destruct (decide (u = user_id)) as [->|Hne]; [|exact (Ho2 u Hne)].
  rewrite H2, H1. simpl. rewrite dict_set_twice. reflexivity.
Qed.

(** X3. A delete command is answered "stopped" when the user has an entry
    for the named instrument and "not watching" otherwise; the key is
    deleted from the user's watchlist, the other keys keeping their order,
    and afterwards the user has no entry for that instrument. *)
Theorem delete_removes_entry st user_id raw stock_id resp :
  reachable st -> delete_command raw stock_id ->
  let st' := fst (handle_message st user_id raw resp) in
  snd (handle_message st user_id raw resp)
    = match entry st user_id stock_id with
      | Some _ => ReplyStopped stock_id
      | None => ReplyNotWatching stock_id
      end /\
  watchlist st' user_id = (fun w => dict_del w stock_id) <$> watchlist st user_id /\
  entry st' user_id stock_id = None.
Proof.
  intros Hreach Hc st'.
  destruct (delete_watchlist st user_id raw stock_id resp Hreach Hc) as (Hr & Hw & _ & _).
  split; [exact Hr|]. split; [exact Hw|].
  rewrite entry_watchlist. fold st' in Hw. rewrite Hw.
  destruct (watchlist st user_id) as [w|] eqn:Hwl; [|reflexivity]. simpl.
  apply dict_get_del_eq.
  exact (watchlist_keys_nodup st user_id w (reachable_heap_inv st Hreach) Hwl).
Qed.

(** X4. Repeating a delete command finds nothing: the second one is
    answered "not watching" and leaves the store as the first one left it. *)
Theorem second_delete_finds_nothing st user_id raw stock_id resp resp' :
  reachable st -> delete_command raw stock_id ->
  let st1 := fst (handle_message st user_id raw resp) in
  handle_message st1 user_id raw resp' = (st1, ReplyNotWatching stock_id).
Proof.
  intros Hreach Hc st1.
  pose proof (reach_message _ _ _ st user_id raw resp Hreach) as Hreach1.
  fold st1 in Hreach1.
  assert (He : entry st1 user_id stock_id = None).
  { destruct (delete_watchlist st user_id raw stock_id resp Hreach Hc) as (_ & Hw & _ & _).
    fold st1 in Hw. rewrite entry_watchlist, Hw.
    destruct (watchlist st user_id) as [w|] eqn:Hwl; [|reflexivity]. simpl.
    apply dict_get_del_eq.
    exact (watchlist_keys_nodup st user_id w (reachable_heap_inv st Hreach) Hwl). }
  destruct (delete_watchlist st1 user_id raw stock_id resp' Hreach1 Hc)
    as (Hr & _ & _ & Hst).
  rewrite He in Hr. specialize (Hst He).
  destruct (handle_message st1 user_id raw resp') as [st2 r2]. simpl in *. congruence.
Qed.

(** X5. Adding an instrument the user was not watching and then deleting
    it gives back the watchlist the user had, and leaves the other users'
    watchlists as they were. *)
Theorem add_then_delete_restores st user_id raw raw_del resp resp' price :
  reachable st -> isdigit (strip raw) = true ->
  get_tw_stock_price resp = Some price ->
  delete_command raw_del (strip raw) ->
  entry st user_id (strip raw) = None ->
  let st1 := fst (handle_message st user_id raw resp) in
  let st2 := fst (handle_message st1 user_id raw_del resp') in
  default [] (watchlist st2 user_id) = default [] (watchlist st user_id) /\
  (forall u, u <> user_id -> watchlist st2 u = watchlist st u).
Proof.
  intros Hreach Hd Hp Hc He st1 st2.
  destruct (add_watchlist st user_id raw resp price Hreach Hd Hp) as [H1 Ho1].
  fold st1 in H1, Ho1.
  destruct (delete_watchlist st1 user_id raw_del (strip raw) resp'
              (reach_message _ _ _ st user_id raw resp Hreach) Hc) as (_ & H2 & Ho2 & _).
  fold st1 st2 in H2, Ho2. split.
  - rewrite H2, H1. simpl. apply dict_del_set_new.
    rewrite entry_watchlist in He.
    destruct (watchlist st user_id) as [w|]; [exact He|reflexivity].
  - intros u Hne. rewrite Ho2, Ho1 by exact Hne. reflexivity.
Qed.

(** ** The list command and surrounding whitespace *)

Lemma lstrip_fixed s : (forall c t, s = c :: t -> isspace c = false) -> lstrip s = s.
Proof.
  destruct s as [|c t]; [reflexivity|]. intros H. simpl.
  rewrite (H c t eq_refl). reflexivity.
Qed.

Lemma lstrip_app_last s c : isspace c = false -> lstrip (s ++ [c]) = lstrip s ++ [c].
Proof.
  intros Hc. induction s as [|a s IH]; simpl; [rewrite Hc; reflexivity|].
  destruct (isspace a); [exact IH|reflexivity].
Qed.

Lemma rstrip_cons c s : isspace c = false -> rstrip (c :: s) = c :: rstrip s.
Proof.
  intros Hc. unfold rstrip. simpl rev at 2.
  rewrite lstrip_app_last by exact Hc. rewrite rev_app_distr. reflexivity.
Qed.

(** Stripping a stripped string changes nothing. *)
Lemma strip_idem s : strip (strip s) = strip s.
Proof.
  assert (Hhead : forall c t, strip s = c :: t -> isspace c = false).
  { unfold strip. destruct (lstrip s) as [|a x] eqn:Hl.
    - intros c t H. discriminate H.
    - pose proof (lstrip_head s a x Hl) as Ha. rewrite rstrip_cons by exact Ha.
      intros c t [= <- _]. exact Ha. }
  unfold strip at 1. rewrite (lstrip_fixed _ Hhead). unfold rstrip.
  rewrite lstrip_fixed; [apply rev_involutive|].
  intros c t Hr. apply (strip_last s (rev t) c).
  rewrite <- (rev_involutive (strip s)), Hr. reflexivity.
Qed.

(** X7. Whitespace around a message, full-width spaces included, does not
    matter: the message and its trimmed text are handled alike. *)
Theorem surrounding_whitespace_ignored st user_id raw resp :
  handle_message st user_id (strip raw) resp = handle_message st user_id raw resp.
Proof. unfold handle_message. rewrite strip_idem. reflexivity. Qed.

Lemma lines_of_watchlist st l :
  lines_of (map (fun '(s, li) => (s, deref_info st li)) (deref_dict st l))
  = map (fun '(stock_id, li) =>
           (stock_id, default fzero (deref_info st li !! "base_price")))
        (deref_dict st l).
Proof.
  unfold lines_of. rewrite map_map. apply map_ext. intros [s li]. reflexivity.
Qed.

(** X6. The list command changes nothing; it is answered "no watches" when
    the user's watchlist is absent or empty, and otherwise with one line per
    entry, in the order of the watchlist; an instrument is listed with a
    price exactly when the user has an entry for it with that base price. *)
Theorem list_reply_shows_watchlist st user_id raw resp :
  reachable st -> py_lower (strip raw) = lit "list" ->
  handle_message st user_id raw resp
    = (st, match default [] (watchlist st user_id) with
           | [] => ReplyNoWatches
           | w => ReplyList (lines_of w)
           end) /\
  (forall s b, (s, b) ∈ lines_of (default [] (watchlist st user_id)) <->
               exists i, entry st user_id s = Some i /\ i !! "base_price" = Some b).
Proof.
  intros Hreach Hlist. pose proof (reachable_inv st Hreach) as Hinv.
  pose proof (reachable_heap_inv st Hreach) as Hh. split.
  - unfold handle_message. rewrite Hlist.
    case_decide as Hhelp.
    { exfalso. destruct Hhelp as [H|H]; vm_compute in H; discriminate. }
    case_decide as Hl; [|contradiction].
    unfold watchlist. destruct (dict_get (watches st) user_id) as [l|]; [|reflexivity].
    simpl. rewrite <- lines_of_watchlist.
    destruct (deref_dict st l) as [|[s li] d]; reflexivity.
  - intros s b. rewrite entry_watchlist.
    destruct (watchlist st user_id) as [w|] eqn:Hw; simpl.
    + pose proof (watchlist_keys_nodup st user_id w Hh Hw) as Hnd.
      assert (Hder : forall s' i, (s', i) ∈ w -> derived i).
      { unfold watchlist in Hw.
        destruct (dict_get (watches st) user_id) as [l|]; [|discriminate].
        injection Hw as <-. intros s' i Hin.
        apply list_elem_of_fmap in Hin as ([s0 li] & [= -> ->] & Hin).
        exact (member_derived st l s0 li Hinv Hin). }
      split.
      * intros Hin. unfold lines_of in Hin.
        apply list_elem_of_fmap in Hin as ([s0 i] & [= -> ->] & Hin).
        exists i. split; [exact (dict_get_nodup w s0 i Hnd Hin)|].
        destruct (Hder s0 i Hin) as (b & Hb & _). rewrite Hb. reflexivity.
      * intros (i & Hg & Hb). unfold lines_of. apply list_elem_of_fmap.
        exists (s, i). split; [rewrite Hb; reflexivity|].
        exact (dict_get_elem _ _ _ Hg).
    + split; [intros H; inversion H|intros (i & H & _); discriminate].
Qed.

(** ** More about the passes of the alert loop *)

Lemma member_entry st u l s li :
  heap_inv st -> dict_get (watches st) u = Some l -> (s, li) ∈ deref_dict st l ->
  dict_get (deref_dict st l) s = Some li /\ entry st u s = Some (deref_info st li).
Proof.
  intros Hh Hu Hin.
  assert (Hg : dict_get (deref_dict st l) s = Some li).
  { apply dict_get_nodup; [|exact Hin]. unfold deref_dict in *.
    destruct (user_dicts st !! l) as [d|] eqn:Hd; simpl in *; [|inversion Hin].
    exact (inv_stock_keys st Hh l d Hd). }
  split; [exact Hg|]. unfold entry. rewrite Hu, Hg. reflexivity.
Qed.

(** X13. A push is sent only on a crossing: in the evaluation of a triple
    that the command path does not interleave with, a push names that
    triple, the price just fetched and the entry's base price, and its
    direction is "up" when the price reached the upper threshold and "down"
    when it did not but reached the lower one. *)
Theorem push_only_on_crossing st env user_id stock_id l li u s p b d ok :
  reachable st -> quiet env ->
  dict_get (watches st) user_id = Some l -> (stock_id, li) ∈ deref_dict st l ->
  Push u s p b d ok ∈ r_events (process_triple env user_id stock_id li st) ->
  u = user_id /\ s = stock_id /\ ok = push_ok env /\
  get_tw_stock_price (quote env) = Some p /\
  deref_info st li !! "base_price" = Some b /\
  match d with
  | Up => fge p (fmul b c1_05) = true
  | Down => fge p (fmul b c1_05) = false /\ fle p (fmul b c0_95) = true
  end.
Proof.
  intros Hreach Hq Hu Hin. pose proof (reachable_inv st Hreach) as Hinv.
  destruct (process_triple_quiet env user_id stock_id li st l Hq Hinv Hu Hin)
    as (b0 & li' & Hb & _ & ->).
  destruct (get_tw_stock_price (quote env)) as [price|]; [|intros H; absent_event H].
  unfold crossing.
  destruct (fge price (fmul b0 c1_05)) eqn:Hup;
    [|destruct (fle price (fmul b0 c0_95)) eqn:Hdown]; simpl; intros H;
    repeat (apply elem_of_cons in H as [H|H]; [try discriminate H|]);
    try (inversion H; fail); injection H as -> -> -> -> -> ->; auto 10.
Qed.

Lemma no_crossing_at_base price :
  positive_normal price = true ->
  crossing price (Some (fmul price c1_05)) (Some (fmul price c0_95)) = inr None.
Proof.
  intros Hn. unfold crossing.
  change (fge price (fmul price c1_05)) with (fle (fmul price c1_05) price).
  rewrite (flt_not_fle _ _ (fmul_c1_05_gt price Hn)).
  rewrite (flt_not_fle _ _ (fmul_c0_95_lt price Hn)). reflexivity.
Qed.

(** X10. The same price does not alert twice in a row: once a triple has
    been evaluated at a positive normal price, evaluating it again at that
    price, with no command in between, only queries: it pushes nothing and
    leaves the store as it is. *)
Theorem same_price_alerts_once st user_id stock_id l li q ok ok' price :
  reachable st ->
  dict_get (watches st) user_id = Some l -> (stock_id, li) ∈ deref_dict st l ->
  get_tw_stock_price q = Some price -> positive_normal price = true ->
  let r1 := process_triple (TripleEnv q [] ok []) user_id stock_id li st in
  let r2 := process_triple (TripleEnv q [] ok' []) user_id stock_id li (r_store r1) in
  r2 = done (r_store r1) [Query user_id stock_id].
Proof.
  intros Hreach Hu Hin Hq Hn r1 r2.
  pose proof (reachable_inv st Hreach) as Hinv.
  pose proof (reachable_heap_inv st Hreach) as Hh.
  destruct (member_entry st user_id l stock_id li Hh Hu Hin) as [Hg _].
  destruct (process_triple_quiet (TripleEnv q [] ok []) user_id stock_id li st l
              (conj eq_refl eq_refl) Hinv Hu Hin) as (b & li' & Hb & Hli' & Hrun1).
  assert (li' = li) by congruence. subst li'.
  simpl quote in Hrun1. rewrite Hq in Hrun1.
  assert (Hinv1 : store_inv (r_store r1)) by apply process_triple_inv, Hinv.
  destruct (crossing price (Some (fmul b c1_05)) (Some (fmul b c0_95)))
    as [e|[d|]] eqn:Hc.
  - (* the comparison cannot raise on two numbers *)
    destruct (crossing_total price (fmul b c1_05) (fmul b c0_95)) as [c Hc'].
    congruence.
  - (* a crossing: the entry now has [price] as its base *)
    assert (Hs1 : r_store r1 = set_info st li (rebased price (deref_info st li)))
      by (subst r1; rewrite Hrun1; reflexivity).
    assert (Hu1 : dict_get (watches (r_store r1)) user_id = Some l)
      by (rewrite Hs1; exact Hu).
    assert (Hin1 : (stock_id, li) ∈ deref_dict (r_store r1) l)
      by (rewrite Hs1; exact Hin).
    destruct (process_triple_quiet (TripleEnv q [] ok' []) user_id stock_id li
                (r_store r1) l (conj eq_refl eq_refl) Hinv1 Hu1 Hin1)
      as (b1 & li1 & Hb1 & _ & Hrun2).
    rewrite Hs1, deref_info_set_info in Hb1.
    rewrite (proj1 (rebased_fields price _)) in Hb1. injection Hb1 as <-.
    subst r2. rewrite Hrun2. simpl quote. rewrite Hq, (no_crossing_at_base price Hn).
    reflexivity.
  - (* no crossing: nothing changed, and the same test gives the same answer *)
    assert (Hs1 : r_store r1 = st) by (subst r1; rewrite Hrun1; reflexivity).
    destruct (process_triple_quiet (TripleEnv q [] ok' []) user_id stock_id li st l
                (conj eq_refl eq_refl) Hinv Hu Hin) as (b1 & li1 & Hb1 & _ & Hrun2).
    assert (b1 = b) by congruence. subst b1.
    subst r2. rewrite Hs1, Hrun2. simpl quote. rewrite Hq, Hc. reflexivity.
Qed.

(** X12. A NaN never alerts: when the fetched price is a NaN, or when the
    entry's base price is, neither test passes. *)
Theorem nan_never_triggers price b :
  price = S754_nan \/ b = S754_nan ->
  crossing price (Some (fmul b c1_05)) (Some (fmul b c0_95)) = inr None.
Proof.
  intros [->| ->]; unfold crossing, fge, fle, SFleb.
  - destruct (fmul b c1_05), (fmul b c0_95); reflexivity.
  - change (fmul S754_nan c1_05) with S754_nan.
    change (fmul S754_nan c0_95) with S754_nan.
    destruct price; reflexivity.
Qed.

Lemma and_then_done_run st evs k :
  done st evs +> k
  = {| r_store := r_store (k st); r_events := evs ++ r_events (k st);
       r_raised := r_raised (k st) |}.
Proof. reflexivity. Qed.

Lemma process_triple_calm env u s li st l :
  quiet (env u s) -> store_inv st -> heap_inv st -> calm_for env st ->
  dict_get (watches st) u = Some l -> (s, li) ∈ deref_dict st l ->
  exists evs, process_triple (env u s) u s li st = done st evs /\
              Forall (fun e => is_push e = false) evs.
Proof.
  intros Hq Hinv Hh Hcalm Hu Hin.
  destruct (process_triple_quiet (env u s) u s li st l Hq Hinv Hu Hin)
    as (b & li' & Hb & _ & ->).
  destruct (get_tw_stock_price (quote (env u s))) as [p|] eqn:Hp.
  - destruct (member_entry st u l s li Hh Hu Hin) as [_ He].
    destruct (member_derived st l s li Hinv Hin) as (b' & Hb' & Hup & Hdown).
    assert (b' = b) by congruence. subst b'.
    pose proof (Hcalm u s _ p He Hp) as Hc. rewrite Hup, Hdown in Hc. rewrite Hc.
    eexists. split; [reflexivity|]. repeat constructor.
  - eexists. split; [reflexivity|]. repeat constructor.
Qed.

Lemma inner_loop_calm env u l len0 st :
  (forall s, quiet (env u s)) -> store_inv st -> heap_inv st -> calm_for env st ->
  dict_get (watches st) u = Some l -> length (deref_dict st l) = len0 ->
  forall remaining,
  exists evs, inner_loop env u l len0 remaining st = done st evs /\
              Forall (fun e => is_push e = false) evs.
Proof.
  intros Hq Hinv Hh Hcalm Hu Hlen.
  induction remaining as [|n IH]; simpl; rewrite Hlen, Nat.eqb_refl; simpl.
  - exists []. split; [reflexivity|constructor].
  - destruct (deref_dict st l !! (len0 - S n)) as [[s li]|] eqn:Hl.
    + pose proof (proj2 (list_elem_of_lookup _ _) (ex_intro _ _ Hl)) as Hin.
      destruct (process_triple_calm env u s li st l (Hq s) Hinv Hh Hcalm Hu Hin)
        as (evs1 & -> & H1).
      destruct IH as (evs2 & H2run & H2).
      rewrite and_then_done_run, H2run. simpl.
      exists (evs1 ++ evs2). split; [reflexivity|]. apply Forall_app. auto.
    + exists []. split; [reflexivity|constructor].
Qed.

Lemma outer_loop_calm env st :
  (forall u s, quiet (env u s)) -> store_inv st -> heap_inv st -> calm_for env st ->
  forall snap,
  (forall u l, (u, l) ∈ snap -> dict_get (watches st) u = Some l) ->
  exists evs, outer_loop env snap st = done st evs /\
              Forall (fun e => is_push e = false) evs.
Proof.
  intros Hq Hinv Hh Hcalm. induction snap as [|[u l] snap IH]; intros Hsnap; simpl.
  - exists []. split; [reflexivity|constructor].
  - destruct (inner_loop_calm env u l (length (deref_dict st l)) st (Hq u) Hinv Hh Hcalm
                (Hsnap u l ltac:(left)) eq_refl (length (deref_dict st l)))
      as (evs1 & -> & H1).
    destruct IH as (evs2 & H2run & H2).
    { intros u' l' Hin. apply Hsnap. right. exact Hin. }
    rewrite and_then_done_run, H2run. simpl.
    exists (evs1 ++ evs2). split; [reflexivity|]. apply Forall_app. auto.
Qed.

(** X8. A pass in which no price crosses changes nothing and pushes
    nothing: when the command path is idle and every price is either
    unavailable or passes neither test of its entry, the store after the
    pass is the store before it, and no event of the pass is a push. *)
Theorem calm_pass_changes_nothing env st :
  reachable st -> (forall u s, quiet (env u s)) -> calm_for env st ->
  fst (alert_cycle env st) = st /\
  Forall (fun e => is_push e = false) (snd (alert_cycle env st)).
Proof.
  intros Hreach Hq Hcalm. pose proof (reachable_inv st Hreach) as Hinv.
  destruct (outer_loop_calm env st Hq Hinv (reachable_heap_inv st Hreach) Hcalm
              (snapshot st)) as (evs & Hrun & Hev).
  { intros u l Hin. apply dict_get_nodup; [exact (inv_keys st Hinv)|exact Hin]. }
  unfold alert_cycle. rewrite Hrun. simpl. split; [reflexivity|].
  apply Forall_app. split; [exact Hev|repeat constructor].
Qed.

(** X9. By itself the alert loop neither adds nor removes a watch: after a
    pass that the command path does not interleave with, [watches] and the
    per-user dictionaries are the same objects with the same keys, so every
    user has an entry for exactly the instruments they had. *)
Theorem quiet_pass_keeps_instruments env st :
  reachable st -> (forall u s, quiet (env u s)) ->
  let st' := fst (alert_cycle env st) in
  watches st' = watches st /\ user_dicts st' = user_dicts st /\
  (forall u s, is_Some (entry st' u s) <-> is_Some (entry st u s)).
Proof.
  intros Hreach Hq st'. pose proof (reachable_inv st Hreach) as Hinv.
  destruct (outer_loop_quiet env Hq (snapshot st) st Hinv) as (Hr & Hw & Hd & _ & _).
  { intros u l Hin. apply dict_get_nodup; [exact (inv_keys st Hinv)|exact Hin]. }
  assert (Hst : st' = r_store (outer_loop env (snapshot st) st)).
  { unfold st', alert_cycle. rewrite Hr. reflexivity. }
  rewrite Hst. split; [exact Hw|]. split; [exact Hd|].
  intros u s. unfold entry, deref_dict. rewrite Hw, Hd.
  destruct (dict_get (watches st) u) as [l|]; [|reflexivity].
  destruct (dict_get (default [] (user_dicts st !! l)) s); [|reflexivity].
  split; eauto.
Qed.

Lemma handle_message_users st u raw resp :
  watches st `prefix_of` watches (fst (handle_message st u raw resp)).
Proof.
  unfold handle_message.
  case_decide; [reflexivity|].
  case_decide.
  { destruct (match dict_get (watches st) u with
              | Some l => deref_dict st l | None => [] end); reflexivity. }
  destruct (startswith _ _ || startswith _ _).
  { destruct (split _) as [|tok [|stock_id toks]]; try reflexivity.
    destruct (dict_get (watches st) u) as [lu|]; [|reflexivity].
    destruct (dict_get (deref_dict st lu) stock_id); reflexivity. }
  destruct (isdigit _); [|reflexivity].
  destruct (get_tw_stock_price resp) as [price|]; [|reflexivity].
  simpl. destruct (dict_get (watches st) u) as [l|] eqn:Hu.
  - unfold put_watch. rewrite Hu. reflexivity.
  - unfold put_watch. simpl. rewrite dict_get_set_eq. simpl.
    rewrite dict_set_new by exact Hu. apply prefix_app_r. reflexivity.
Qed.

(** X11. A user is never removed from [watches]: a command or a pass of the
    alert loop, whatever is interleaved with it, only ever appends users, so
    each user keeps their position and their dictionary object, also after
    deleting their last instrument. *)
Theorem users_are_never_removed :
  (forall st user_id raw resp,
     watches st `prefix_of` watches (fst (handle_message st user_id raw resp))) /\
  (forall env st, watches st `prefix_of` watches (fst (alert_cycle env st))).
Proof.
  split; [exact handle_message_users|]. intros env st.
  apply (alert_cycle_preserves (fun st' => watches st `prefix_of` watches st')).
  - intros st' u raw resp H. etransitivity; [exact H|apply handle_message_users].
  - intros st' li i H. exact H.
  - reflexivity.
Qed.

(** X14. Only two replies come with a change of the store: whenever the
    reply is not "stopped" and not "watching" (help, list, not watching,
    no price, unparsed), the store is exactly as it was. *)
Theorem reply_tells_store_change st user_id raw resp :
  fst (handle_message st user_id raw resp) = st \/
  (exists stock_id, snd (handle_message st user_id raw resp) = ReplyStopped stock_id) \/
  (exists stock_id price,
     snd (handle_message st user_id raw resp) = ReplyWatching stock_id price).
Proof.
  unfold handle_message.
  case_decide; [auto|].
  case_decide.
  { destruct (match dict_get (watches st) user_id with
              | Some l => deref_dict st l | None => [] end); auto. }
  destruct (startswith _ _ || startswith _ _).
  { destruct (split _) as [|tok [|stock_id toks]]; auto.
    destruct (dict_get (watches st) user_id) as [lu|]; [|auto].
    destruct (dict_get (deref_dict st lu) stock_id); [|auto].
    right. left. eauto. }
  destruct (isdigit _); [|auto].
  destruct (get_tw_stock_price resp) as [price|]; [|auto].
  right. right. eauto.
Qed.

(** X15. In every store the program reaches, a watchlist names each
    instrument once, and no two users share a dictionary object. *)
Theorem watchlists_have_distinct_keys st :
  reachable st ->
  (forall u w, watchlist st u = Some w -> NoDup w.*1) /\
  (forall u u' l, dict_get (watches st) u = Some l ->
                  dict_get (watches st) u' = Some l -> u = u').
Proof.
  intros Hreach. split.
  - intros u w. apply watchlist_keys_nodup, reachable_heap_inv, Hreach.
  - intros u u' l Hu Hu'.
    exact (nodup_snd_key _ _ _ _ (inv_users st (reachable_inv st Hreach))
             (dict_get_elem _ _ _ Hu) (dict_get_elem _ _ _ Hu')).
Qed.


End BotFacts.

(** ** The ASCII tables satisfy the facts assumed of the Unicode tables *)

Lemma ascii_digit_cases c :
  ascii_isdigit_cp c = true ->
  (c = 48 \/ c = 49 \/ c = 50 \/ c = 51 \/ c = 52 \/
   c = 53 \/ c = 54 \/ c = 55 \/ c = 56 \/ c = 57)%N.
Proof.
  unfold ascii_isdigit_cp. intros H. apply andb_true_iff in H as [H1 H2].
  apply N.leb_le in H1, H2. lia.
Qed.

Lemma ascii_digit_not_space c : ascii_isdigit_cp c = true -> isspace c = false.
Proof.
  intros H. apply ascii_digit_cases in H.
  repeat (destruct H as [->|H]; [reflexivity|]). subst c. reflexivity.
Qed.

Lemma ascii_digit_not_letter c :
  ascii_isdigit_cp c = true -> c ∉ [0x68; 0x6C; 0x64; 0x8AAA; 0x522A]%N.
Proof.
  intros H Hin. apply ascii_digit_cases in H.
  repeat (apply elem_of_cons in Hin as [->|Hin]; [lia|]). inversion Hin.
Qed.

Lemma ascii_lower_digits t :
  isdigit ascii_isdigit_cp t = true -> ascii_lower t = t.
Proof.
  intros H. assert (Hall : forallb ascii_isdigit_cp t = true)
    by (destruct t; [discriminate|exact H]).
  clear H. induction t as [|c t IH]; simpl in *; [reflexivity|].
  apply andb_true_iff in Hall as [Hc Hall]. rewrite (IH Hall). f_equal.
  apply ascii_digit_cases in Hc.
  repeat (destruct Hc as [->|Hc]; [reflexivity|]). subst c. reflexivity.
Qed.

Lemma one_watch_reachable : bot_reachable one_watch.
Proof. apply reach_message, reach_start. Qed.

Lemma two_watches_reachable : bot_reachable two_watches.
Proof. apply reach_message, one_watch_reachable. Qed.

Lemma two_users_reachable : bot_reachable two_users.
Proof. apply reach_message, two_watches_reachable. Qed.

(** ** The theorems at concrete inputs *)

Lemma thresholds_after_rebasing_witness :
  (exists i,
     entry (fst (bot_message empty_store user1 (lit "2330") (answer "150.0000")))
           user1 (strip (lit "2330")) = Some i /\
     i !! "base_price" = Some f150 /\
     i !! "up_threshold" = Some (fmul f150 c1_05) /\
     i !! "down_threshold" = Some (fmul f150 c0_95)) /\
  (exists i,
     entry (r_store (rebase user1 (lit "2330") f158 one_watch)) user1 (lit "2330") = Some i /\
     i !! "base_price" = Some f158 /\
     i !! "up_threshold" = Some (fmul f158 c1_05) /\
     i !! "down_threshold" = Some (fmul f158 c0_95)).
Proof.
  pose proof (thresholds_after_rebasing ascii_lower ascii_isdigit_cp sample_float
                ascii_digit_not_space ascii_digit_not_letter ascii_lower_digits) as H.
  split.
  - apply (proj1 (H empty_store user1) (lit "2330") (answer "150.0000") f150);
      reflexivity.
  - apply (proj2 (H one_watch user1) (lit "2330") f158).
    exists (new_info f150). reflexivity.
Defined.

Lemma crossing_closed_boundaries_witness :
  crossing (fmul f150 c1_05) (Some (fmul f150 c1_05)) (Some (fmul f150 c0_95))
    = inr (Some Up) /\
  crossing (fmul f150 c0_95) (Some (fmul f150 c1_05)) (Some (fmul f150 c0_95))
    <> inr None /\
  crossing (fmul f150 c0_95) (Some (fmul f150 c1_05)) (Some (fmul f150 c0_95))
    = inr (Some Down) /\
  crossing f150 (Some (fmul f150 c1_05)) (Some (fmul f150 c0_95)) = inr None.
Proof.
  split; [|split; [|split]].
  - apply (proj1 (proj2 (crossing_closed_boundaries _ _ _))). reflexivity.
  - apply (proj1 (proj2 (proj2 (crossing_closed_boundaries _ _ _)))). reflexivity.
  - apply (proj1 (proj2 (proj2 (proj2 (crossing_closed_boundaries _ _ _)))));
      reflexivity.
  - apply (proj2 (proj2 (proj2 (proj2 (crossing_closed_boundaries _ _ _)))));
      reflexivity.
Defined.

Lemma rebase_regardless_of_delivery_witness :
  let r := bot_triple (TripleEnv (answer "158.0000") [] false []) user1 (lit "2330") 1
                      one_watch in
  r_raised r = None /\
  (exists old, deref_info one_watch 1 !! "base_price" = Some old /\
     r_events r = [Query user1 (lit "2330");
                   Push user1 (lit "2330") f158 old Up false]) /\
  (exists i, entry (r_store r) user1 (lit "2330") = Some i /\
     i !! "base_price" = Some f158 /\
     i !! "up_threshold" = Some (fmul f158 c1_05) /\
     i !! "down_threshold" = Some (fmul f158 c0_95)).
Proof.
  apply (rebase_regardless_of_delivery ascii_lower ascii_isdigit_cp sample_float
           one_watch user1 (lit "2330") 0 1 (answer "158.0000") false f158 Up).
  - exact one_watch_reachable.
  - reflexivity.
  - vm_compute. left.
  - reflexivity.
  - reflexivity.
Defined.


Lemma thresholds_follow_base_witness :
  flt (fmul f150 c0_95) f150 = true /\ flt f150 (fmul f150 c1_05) = true.
Proof.
  destruct (thresholds_follow_base ascii_lower ascii_isdigit_cp sample_float
              one_watch user1 (lit "2330") (new_info f150)
              one_watch_reachable eq_refl) as (b & Hb & _ & _ & Hord).
  vm_compute in Hb. injection Hb as Hb. subst b. apply Hord. reflexivity.
Defined.

Lemma delete_only_that_entry_witness :
  let st' := fst (bot_message two_users user1 (lit "del 2330") NoResponse) in
  exists stock_id,
    split (strip (replace_fullwidth (ascii_lower (strip (lit "del 2330"))))) !! 1
      = Some stock_id /\
    (forall u, u <> user1 -> watchlist st' u = watchlist two_users u) /\
    (forall s, s <> stock_id -> entry st' user1 s = entry two_users user1 s).
Proof.
  apply (delete_only_that_entry ascii_lower ascii_isdigit_cp sample_float
           two_users user1 (lit "del 2330") NoResponse).
  - exact two_users_reachable.
  - reflexivity.
Defined.

Lemma del_usage_unreachable_witness :
  2 <= length (split (strip (replace_fullwidth (ascii_lower (strip (lit "DEL 2330")))))).
Proof.
  apply (proj1 (del_usage_unreachable ascii_lower ascii_isdigit_cp sample_float
                  empty_store user1 (lit "DEL 2330") NoResponse)).
  reflexivity.
Defined.

Lemma failures_do_not_stop_the_loop_witness :
  (forall e, CycleError e ∉ snd (bot_cycle rising_env two_users)) /\
  (forall u s, (u, s) ∈ triples two_users (snapshot two_users) ->
               Query u s ∈ snd (bot_cycle rising_env two_users)).
Proof.
  apply (proj2 (failures_do_not_stop_the_loop ascii_lower ascii_isdigit_cp sample_float)).
  - exact two_users_reachable.
  - intros u s. split; reflexivity.
Defined.

(** With a base price of [0.0] both thresholds are [0.0]: a price of [0.0]
    passes both tests, and the first one, "up", decides. *)
Lemma crossing_tries_up_first :
  let st := fst (bot_message empty_store user1 (lit "2330") (answer "0.0")) in
  entry st user1 (lit "2330") = Some (new_info fzero) /\
  fle fzero (fmul fzero c0_95) = true /\
  snd (bot_cycle (fun _ _ => TripleEnv (answer "0.0") [] true []) st) =
    [Query user1 (lit "2330"); Push user1 (lit "2330") fzero fzero Up true; Sleep].
Proof. repeat split; reflexivity. Qed.

(** ** Where the program departs from the specification *)

(** C1. The copy that the alert loop takes shares the per-user
    dictionaries and the info objects with the live store: what iterating
    the snapshot of [one_watch] shows changes when, after the snapshot was
    taken, the user deletes the instrument, adds another one, or the entry
    is re-based. *)
Lemma snapshot_shares_live_dictionaries :
  let snap := snapshot one_watch in
  snapshot_view one_watch snap =
    [(user1, [(lit "2330", (Some f150, Some (fmul f150 c1_05), Some (fmul f150 c0_95)))])] /\
  snapshot_view (fst (bot_message one_watch user1 (lit "del 2330") NoResponse)) snap =
    [(user1, [])] /\
  snapshot_view (fst (bot_message one_watch user1 (lit "2603") (answer "100.0000"))) snap =
    [(user1, [(lit "2330", (Some f150, Some (fmul f150 c1_05), Some (fmul f150 c0_95)));
              (lit "2603", (Some f100, Some (fmul f100 c1_05), Some (fmul f100 c0_95)))])] /\
  snapshot_view (r_store (rebase user1 (lit "2330") f158 one_watch)) snap =
    [(user1, [(lit "2330", (Some f158, Some (fmul f158 c1_05), Some (fmul f158 c0_95)))])].
Proof. vm_compute. repeat split; reflexivity. Qed.

(** C2. When the entry is deleted while its price query is in flight, the
    re-base that follows the crossing raises [KeyError]: the store is left
    as the deletion made it, but the error reaches the handler of the pass
    and is reported. *)
Lemma rebase_of_deleted_entry_raises :
  let after_delete := fst (bot_message one_watch user1 (lit "del 2330") NoResponse) in
  let r := bot_triple (deleting_env user1 (lit "2330")) user1 (lit "2330") 1 one_watch in
  entry after_delete user1 (lit "2330") = None /\
  r_raised r = Some KeyError /\
  r_store r = after_delete /\
  snd (bot_cycle deleting_env one_watch) =
    [Query user1 (lit "2330"); Push user1 (lit "2330") f158 f150 Up true;
     CycleError KeyError; Sleep].
Proof. vm_compute. repeat split; reflexivity. Qed.

(** C3, as stated, fails: in a pass over [two_watches] the error raised
    while evaluating the triple of 2330 ends the pass, and the triple of
    2603, which is in the snapshot, is not evaluated. *)
Lemma error_skips_remaining_triples :
  (user1, lit "2603") ∈ triples two_watches (snapshot two_watches) /\
  snd (bot_cycle deleting_env two_watches) =
    [Query user1 (lit "2330"); Push user1 (lit "2330") f158 f150 Up true;
     CycleError KeyError; Sleep] /\
  Query user1 (lit "2603") ∉ snd (bot_cycle deleting_env two_watches).
Proof.
  split; [vm_compute; right; left|].
  split; [vm_compute; reflexivity|].
  intros H. vm_compute in H. absent_event H.
Qed.

(** C8, as stated, fails: a base price of [inf], or of the least positive
    double, is positive, and the lower threshold derived from it is the base
    price itself, not below it. *)
Lemma thresholds_not_strict_at_the_extremes :
  (let st := fst (bot_message empty_store user1 (lit "2330") (answer "inf")) in
   bot_reachable st /\
   entry st user1 (lit "2330") = Some (new_info (S754_infinity false)) /\
   new_info (S754_infinity false) !! "base_price" = Some (S754_infinity false) /\
   new_info (S754_infinity false) !! "down_threshold" = Some (S754_infinity false) /\
   flt fzero (S754_infinity false) = true /\
   flt (S754_infinity false) (S754_infinity false) = false) /\
  (let st := fst (bot_message empty_store user1 (lit "2330") (answer "5e-324")) in
   bot_reachable st /\
   entry st user1 (lit "2330") = Some (new_info min_subnormal) /\
   new_info min_subnormal !! "base_price" = Some min_subnormal /\
   new_info min_subnormal !! "down_threshold" = Some min_subnormal /\
   flt fzero min_subnormal = true /\
   flt min_subnormal min_subnormal = false).
Proof.
  split; (split; [apply reach_message, reach_start|]);
    repeat split; reflexivity.
Qed.

(** ** More of the program, at concrete inputs *)

Lemma add_sets_watchlist_witness :
  watchlist two_watches user1
    = Some (dict_set (default [] (watchlist one_watch user1)) (strip (lit "2603"))
                     (new_info f100)) /\
  (forall u, u <> user1 -> watchlist two_watches u = watchlist one_watch u).
Proof.
  apply (add_sets_watchlist ascii_lower ascii_isdigit_cp sample_float
           ascii_digit_not_space ascii_digit_not_letter ascii_lower_digits
           one_watch user1 (lit "2603") (answer "100.0000") f100).
  - exact one_watch_reachable.
  - reflexivity.
  - reflexivity.
Defined.

Lemma add_twice_is_add_once_witness :
  watchlist (fst (bot_message one_watch user1 (lit "2330") (answer "150.0000"))) user1
  = watchlist one_watch user1.
Proof.
  apply (add_twice_is_add_once ascii_lower ascii_isdigit_cp sample_float
           ascii_digit_not_space ascii_digit_not_letter ascii_lower_digits
           empty_store user1 (lit "2330") (answer "150.0000") f150).
  - apply reach_start.
  - reflexivity.
  - reflexivity.
Defined.

Lemma delete_command_sample : delete_command ascii_lower (lit "Del 2330") (lit "2330").
Proof. split; reflexivity. Qed.

Lemma delete_removes_entry_witness :
  let st' := fst (bot_message two_watches user1 (lit "Del 2330") NoResponse) in
  snd (bot_message two_watches user1 (lit "Del 2330") NoResponse)
    = match entry two_watches user1 (lit "2330") with
      | Some _ => ReplyStopped (lit "2330")
      | None => ReplyNotWatching (lit "2330")
      end /\
  watchlist st' user1 = (fun w => dict_del w (lit "2330")) <$> watchlist two_watches user1 /\
  entry st' user1 (lit "2330") = None.
Proof.
  apply (delete_removes_entry ascii_lower ascii_isdigit_cp sample_float
           two_watches user1 (lit "Del 2330") (lit "2330") NoResponse).
  - exact two_watches_reachable.
  - exact delete_command_sample.
Defined.

Lemma second_delete_finds_nothing_witness :
  let st1 := fst (bot_message two_watches user1 (lit "Del 2330") NoResponse) in
  bot_message st1 user1 (lit "Del 2330") NoResponse = (st1, ReplyNotWatching (lit "2330")).
Proof.
  apply (second_delete_finds_nothing ascii_lower ascii_isdigit_cp sample_float
           two_watches user1 (lit "Del 2330") (lit "2330") NoResponse NoResponse).
  - exact two_watches_reachable.
  - exact delete_command_sample.
Defined.

Lemma add_then_delete_restores_witness :
  let st2 := fst (bot_message two_users user2 (lit "Del 2330") NoResponse) in
  default [] (watchlist st2 user2) = default [] (watchlist two_watches user2) /\
  (forall u, u <> user2 -> watchlist st2 u = watchlist two_watches u).
Proof.
  apply (add_then_delete_restores ascii_lower ascii_isdigit_cp sample_float
           ascii_digit_not_space ascii_digit_not_letter ascii_lower_digits
           two_watches user2 (lit "2330") (lit "Del 2330") (answer "150.0000")
           NoResponse f150).
  - exact two_watches_reachable.
  - reflexivity.
  - reflexivity.
  - exact delete_command_sample.
  - reflexivity.
Defined.

Lemma list_reply_shows_watchlist_witness :
  bot_message two_watches user1 (lit " LIST ") NoResponse
    = (two_watches,
       match default [] (watchlist two_watches user1) with
       | [] => ReplyNoWatches
       | w => ReplyList (lines_of w)
       end) /\
  (forall s b, (s, b) ∈ lines_of (default [] (watchlist two_watches user1)) <->
               exists i, entry two_watches user1 s = Some i /\ i !! "base_price" = Some b).
Proof.
  apply (list_reply_shows_watchlist ascii_lower ascii_isdigit_cp sample_float
           two_watches user1 (lit " LIST ") NoResponse).
  - exact two_watches_reachable.
  - reflexivity.
Defined.

Lemma steady_env_calm : calm_for sample_float steady_env one_watch.
Proof.
  intros u s i p He Hp. injection Hp as <-.
  unfold entry in He. change (watches one_watch) with [(user1, 0)] in He.
  simpl in He. case_decide; [|discriminate].
  change (deref_dict one_watch 0) with [(lit "2330", 1)] in He.
  simpl in He. case_decide; [|discriminate].
  injection He as <-. reflexivity.
Qed.

Lemma calm_pass_changes_nothing_witness :
  fst (bot_cycle steady_env one_watch) = one_watch /\
  Forall (fun e => is_push e = false) (snd (bot_cycle steady_env one_watch)).
Proof.
  apply (calm_pass_changes_nothing ascii_lower ascii_isdigit_cp sample_float
           steady_env one_watch).
  - exact one_watch_reachable.
  - intros u s. split; reflexivity.
  - exact steady_env_calm.
Defined.

Lemma quiet_pass_keeps_instruments_witness :
  let st' := fst (bot_cycle rising_env two_users) in
  watches st' = watches two_users /\ user_dicts st' = user_dicts two_users /\
  (forall u s, is_Some (entry st' u s) <-> is_Some (entry two_users u s)).
Proof.
  apply (quiet_pass_keeps_instruments ascii_lower ascii_isdigit_cp sample_float
           rising_env two_users).
  - exact two_users_reachable.
  - intros u s. split; reflexivity.
Defined.

Lemma same_price_alerts_once_witness :
  let r1 := bot_triple (TripleEnv (answer "158.0000") [] false []) user1 (lit "2330") 1
                       one_watch in
  bot_triple (TripleEnv (answer "158.0000") [] true []) user1 (lit "2330") 1 (r_store r1)
  = done (r_store r1) [Query user1 (lit "2330")].
Proof.
  apply (same_price_alerts_once ascii_lower ascii_isdigit_cp sample_float
           one_watch user1 (lit "2330") 0 1 (answer "158.0000") false true f158).
  - exact one_watch_reachable.
  - reflexivity.
  - vm_compute. left.
  - reflexivity.
  - reflexivity.
Defined.

Lemma nan_never_triggers_witness :
  crossing S754_nan (Some (fmul f150 c1_05)) (Some (fmul f150 c0_95)) = inr None /\
  crossing f158 (Some (fmul S754_nan c1_05)) (Some (fmul S754_nan c0_95)) = inr None.
Proof.
  split.
  - apply nan_never_triggers. left. reflexivity.
  - apply nan_never_triggers. right. reflexivity.
Defined.

Lemma push_only_on_crossing_witness :
  user1 = user1 /\ lit "2330" = lit "2330" /\ false = false /\
  get_tw_stock_price sample_float (answer "158.0000") = Some f158 /\
  deref_info one_watch 1 !! "base_price" = Some f150 /\
  fge f158 (fmul f150 c1_05) = true.
Proof.
  apply (push_only_on_crossing ascii_lower ascii_isdigit_cp sample_float
           one_watch (TripleEnv (answer "158.0000") [] false []) user1 (lit "2330") 0 1
           user1 (lit "2330") f158 f150 Up false).
  - exact one_watch_reachable.
  - split; reflexivity.
  - reflexivity.
  - vm_compute. left.
  - vm_compute. right. left.
Defined.

Lemma watchlists_have_distinct_keys_witness :
  (forall u w, watchlist two_users u = Some w -> NoDup w.*1) /\
  (forall u u' l, dict_get (watches two_users) u = Some l ->
                  dict_get (watches two_users) u' = Some l -> u = u').
Proof.
  apply (watchlists_have_distinct_keys ascii_lower ascii_isdigit_cp sample_float).
  exact two_users_reachable.
Defined.

